(** * telefon: the employee phone book (Gin + PostgreSQL), embedded in Rocq

    A shallow embedding of [main.go] (the variant with authorization) and of
    its sibling without authorization.  Go strings are byte strings
    ([string] of the standard library, one [ascii] per byte); Go's [int] is
    a 64-bit integer carried in [Z]; a function returning [(T, error)]
    returns a [result T]; the database, the request and the response writer
    are explicit values. *)

From Stdlib Require Import String Ascii List Bool ZArith Lia Arith.
From Stdlib Require Import Sorting.Sorted Sorting.Permutation.
Import ListNotations.

Open Scope string_scope.
Open Scope Z_scope.

(** ** Go values *)

(** [error]: the message of a non-nil Go error. *)
Definition error := string.

(** [(T, error)] results: exactly one of the two is meaningful in the
    functions modelled here. *)
Inductive result (A : Type) : Type :=
| Ok (a : A)
| Err (e : error).
Arguments Ok {A} a.
Arguments Err {A} e.

(** A Go slice is either [nil] or holds a sequence of elements;
    [encoding/json] tells the two apart, [range] and [len] do not. *)
Inductive slice (A : Type) : Type :=
| nil_slice
| mk_slice (elems : list A).
Arguments nil_slice {A}.
Arguments mk_slice {A} elems.

Definition elems {A : Type} (s : slice A) : list A :=
  match s with
  | nil_slice => []
  | mk_slice l => l
  end.

(** Go's [int] on a 64-bit platform. *)
Definition int_min : Z := - 2 ^ 63.
Definition int_max : Z := 2 ^ 63 - 1.
Definition wrap_int (z : Z) : Z := (z + 2 ^ 63) mod 2 ^ 64 - 2 ^ 63.

Definition byte_of (c : ascii) : Z := Z.of_N (N_of_ascii c).
Definition of_byte (z : Z) : ascii := ascii_of_N (Z.to_N z).

(** The byte [c] lies in the closed range [lo..hi]. *)
Definition in_range (lo hi : Z) (c : ascii) : bool :=
  (lo <=? byte_of c) && (byte_of c <=? hi).

(** ** Access policy: [hasAccess] *)

Definition allowedGroups : list string :=
  ["Администраторы домена"; "sys.admins"; "Администрация"].

(** The inner loop: [for _, allowedGroup := range allowedGroups]. *)
Fixpoint matches_allowed (userGroup : string) (allowed : list string) : bool :=
  match allowed with
  | [] => false
  | allowedGroup :: rest =>
      if String.eqb userGroup allowedGroup then true
      else matches_allowed userGroup rest
  end.

(** The outer loop: [for _, userGroup := range groups]. *)
Fixpoint hasAccess_loop (groups : list string) : bool :=
  match groups with
  | [] => false
  | userGroup :: rest =>
      if matches_allowed userGroup allowedGroups then true
      else hasAccess_loop rest
  end.

Definition hasAccess (groups : slice string) : bool :=
  hasAccess_loop (elems groups).

(** The allow-list as the specification words it. *)
Definition spec_allow_list : list string :=
  ["Domain Admins"; "sys.admins"; "Administration"].

(** [G] and [A] share a name (exact comparison of the bytes). *)
Definition intersects (G A : list string) : Prop :=
  exists g, In g G /\ In g A.

(** ** The record store *)

(** A row of the employees table as [createTableIfNotExists] declares it:
    [id], [last_name], [first_name], [position] and [phone] are NOT NULL,
    every other column may hold NULL ([None]). *)
Record Row : Type := mkRow {
  r_id : Z;
  r_last_name : string;
  r_first_name : string;
  r_middle_name : option string;
  r_position : string;
  r_phone : string;
  r_email : option string;
  r_building : option string;
  r_comments : option string;
  r_status : option string;
  r_created_at : option Z
}.

(** [type Employee struct]; [CreatedAt] is a point in time. *)
Record Employee : Type := mkEmployee {
  ID : Z;
  LastName : string;
  FirstName : string;
  MiddleName : string;
  Position : string;
  Phone : string;
  Email : string;
  Building : string;
  Comments : string;
  Status : string;
  CreatedAt : Z
}.

(** What the database server decides: the collation used by ORDER BY and
    the lower-casing used by ILIKE. *)
Record Locale : Type := mkLocale {
  lc_leb : string -> string -> bool;
  lc_lower : string -> string
}.

(** The connection pool [db]: the server cannot be reached or refuses the
    statement ([Down]), or it answers from the table. *)
Inductive Conn : Type :=
| Down (e : error)
| Up (table : list Row).

Record DB : Type := mkDB {
  db_locale : Locale;
  db_conn : Conn
}.

(** *** SQL: LIKE and ILIKE *)

Definition pct : ascii := "%"%char.
Definition underscore : ascii := "_"%char.
Definition backslash : ascii := "\"%char.

(** [text LIKE pattern]: [%] matches any run of characters, [_] any one
    character, a backslash takes the next pattern character literally.
    One [ascii] stands for one character.  PostgreSQL raises an error when
    matching reaches a pattern that ends in a lone backslash; that branch
    answers [false] here and is never reached by the patterns of
    [searchEmployees], which end in [%]. *)
Fixpoint like (p : string) : string -> bool :=
  match p with
  | EmptyString =>
      fun t => match t with EmptyString => true | String _ _ => false end
  | String c p' =>
      if Ascii.eqb c pct then
        fix star (t : string) : bool :=
          like p' t ||
          match t with
          | EmptyString => false
          | String _ t' => star t'
          end
      else if Ascii.eqb c underscore then
        fun t => match t with
                 | EmptyString => false
                 | String _ t' => like p' t'
                 end
      else if Ascii.eqb c backslash then
        match p' with
        | EmptyString => fun _ => false
        | String d p'' =>
            fun t => match t with
                     | EmptyString => false
                     | String x t' => Ascii.eqb x d && like p'' t'
                     end
        end
      else
        fun t => match t with
                 | EmptyString => false
                 | String x t' => Ascii.eqb x c && like p' t'
                 end
  end.

(** [text ILIKE pattern]: both sides are lower-cased by the locale, then
    matched. *)
Definition ilike (L : Locale) (text pattern : string) : bool :=
  like (lc_lower L pattern) (lc_lower L text).

(** SQL's three-valued logic: [None] is NULL (unknown). *)
Definition sql_bool := option bool.

Definition sql_or (a b : sql_bool) : sql_bool :=
  match a, b with
  | Some true, _ => Some true
  | _, Some true => Some true
  | Some false, Some false => Some false
  | _, _ => None
  end.

Definition ilike_col (L : Locale) (col : option string) (pattern : string) : sql_bool :=
  match col with
  | None => None
  | Some text => Some (ilike L text pattern)
  end.

(** The WHERE clause of [searchEmployees], [$1] being [pattern]. *)
Definition search_where (L : Locale) (pattern : string) (r : Row) : sql_bool :=
  sql_or (ilike_col L (Some (r_last_name r)) pattern)
  (sql_or (ilike_col L (Some (r_first_name r)) pattern)
  (sql_or (ilike_col L (r_middle_name r) pattern)
  (sql_or (ilike_col L (Some (r_position r)) pattern)
  (sql_or (ilike_col L (Some (r_phone r)) pattern)
          (ilike_col L (r_email r) pattern))))).

(** WHERE keeps the rows on which the condition is true. *)
Definition sql_true (b : sql_bool) : bool :=
  match b with
  | Some true => true
  | _ => false
  end.

(** *** SQL: ORDER BY last_name, first_name *)

(** Ascending by [last_name]; rows that the collation holds equal on
    [last_name] are compared by [first_name]. *)
Definition name_leb (L : Locale) (l1 f1 l2 f2 : string) : bool :=
  if lc_leb L l1 l2 then
    if lc_leb L l2 l1 then lc_leb L f1 f2 else true
  else false.

Definition row_leb (L : Locale) (a b : Row) : bool :=
  name_leb L (r_last_name a) (r_first_name a) (r_last_name b) (r_first_name b).

Fixpoint insert_row (L : Locale) (r : Row) (sorted : list Row) : list Row :=
  match sorted with
  | [] => [r]
  | x :: rest =>
      if row_leb L r x then r :: x :: rest
      else x :: insert_row L r rest
  end.

(** The server's sort.  SQL leaves the order among rows with equal keys
    open; this one keeps them in table order. *)
Fixpoint order_by_name (L : Locale) (rows : list Row) : list Row :=
  match rows with
  | [] => []
  | r :: rest => insert_row L r (order_by_name L rest)
  end.

(** *** database/sql *)

(** [db.Query] with the SELECT of [getEmployees]. *)
Definition query_all (db : DB) : result (list Row) :=
  match db_conn db with
  | Down e => Err e
  | Up table => Ok (order_by_name (db_locale db) table)
  end.

(** [db.Query] with the SELECT of [searchEmployees] and its argument. *)
Definition query_search (db : DB) (pattern : string) : result (list Row) :=
  match db_conn db with
  | Down e => Err e
  | Up table =>
      Ok (order_by_name (db_locale db)
            (filter (fun r => sql_true (search_where (db_locale db) pattern r)) table))
  end.

(** What [QueryRow(...).Scan] sees for [WHERE id = $1]. *)
Inductive row_outcome : Type :=
| QueryFailed (e : error)
| NoRows
| OneRow (r : Row).

Definition query_by_id (db : DB) (id : Z) : row_outcome :=
  match db_conn db with
  | Down e => QueryFailed e
  | Up table =>
      match find (fun r => r_id r =? id) table with
      | None => NoRows
      | Some r => OneRow r
      end
  end.

Definition ErrNoRows : error := "sql: no rows in result set".
Definition null_to_string : error := "converting NULL to string is unsupported".
Definition null_to_time : error := "unsupported Scan, storing driver.Value type <nil> into type *time.Time".

(** [Scan] into a [*string] destination. *)
Definition scan_string (col : option string) : result string :=
  match col with
  | None => Err null_to_string
  | Some s => Ok s
  end.

(** [rows.Scan(&emp.ID, ..., &emp.CreatedAt)]: the destinations are plain
    [string]s and a [time.Time], so a NULL column fails the scan. *)
Definition scan (r : Row) : result Employee :=
  match scan_string (r_middle_name r) with
  | Err e => Err e
  | Ok middle =>
  match scan_string (r_email r) with
  | Err e => Err e
  | Ok email =>
  match scan_string (r_building r) with
  | Err e => Err e
  | Ok building =>
  match scan_string (r_comments r) with
  | Err e => Err e
  | Ok comments =>
  match scan_string (r_status r) with
  | Err e => Err e
  | Ok status =>
  match r_created_at r with
  | None => Err null_to_time
  | Some created =>
      Ok (mkEmployee (r_id r) (r_last_name r) (r_first_name r) middle
            (r_position r) (r_phone r) email building comments status created)
  end end end end end end.

(** The loop [for rows.Next() { ... employees = append(employees, emp) }]
    with its early [return nil, err]. *)
Fixpoint scan_rows (rows : list Row) (employees : list Employee) : result (list Employee) :=
  match rows with
  | [] => Ok employees
  | r :: rest =>
      match scan r with
      | Err e => Err e
      | Ok emp => scan_rows rest (employees ++ [emp])
      end
  end.

(** ** Directory service *)

Definition getEmployees (db : DB) : result (list Employee) :=
  match query_all db with
  | Err e => Err e
  | Ok rows => scan_rows rows []
  end.

Definition searchEmployees (db : DB) (query : string) : result (list Employee) :=
  match query_search db ("%" ++ query ++ "%") with
  | Err e => Err e
  | Ok rows => scan_rows rows []
  end.

(** ** net/url: [QueryEscape] and [QueryUnescape] *)

Definition is_alnum (c : ascii) : bool :=
  in_range 97 122 c || in_range 65 90 c || in_range 48 57 c.

(** [shouldEscape(c, encodeQueryComponent)]: only the unreserved
    characters are left as they are. *)
Definition shouldEscape (c : ascii) : bool :=
  if is_alnum c then false
  else if Ascii.eqb c "-" || Ascii.eqb c "_" || Ascii.eqb c "." || Ascii.eqb c "~"
  then false
  else true.

Definition hex_digit (digits : string) (n : Z) : ascii :=
  match String.get (Z.to_nat n) digits with
  | Some c => c
  | None => "0"%char
  end.

Definition upperhex : string := "0123456789ABCDEF".
Definition lowerhex : string := "0123456789abcdef".

Fixpoint QueryEscape (s : string) : string :=
  match s with
  | EmptyString => EmptyString
  | String c s' =>
      if Ascii.eqb c " " then String "+" (QueryEscape s')
      else if shouldEscape c then
        String "%" (String (hex_digit upperhex (byte_of c / 16))
                   (String (hex_digit upperhex (byte_of c mod 16)) (QueryEscape s')))
      else String c (QueryEscape s')
  end.

Definition ishex (c : ascii) : bool :=
  in_range 48 57 c || in_range 97 102 c || in_range 65 70 c.

Definition unhex (c : ascii) : Z :=
  if in_range 48 57 c then byte_of c - 48
  else if in_range 97 102 c then byte_of c - 97 + 10
  else if in_range 65 70 c then byte_of c - 65 + 10
  else 0.

Definition EscapeError : error := "invalid URL escape".

Definition cons_ok (c : ascii) (r : result string) : result string :=
  match r with
  | Ok t => Ok (String c t)
  | Err e => Err e
  end.

Fixpoint QueryUnescape (s : string) : result string :=
  match s with
  | EmptyString => Ok EmptyString
  | String c s' =>
      if Ascii.eqb c "%" then
        match s' with
        | String h1 (String h2 s'') =>
            if ishex h1 && ishex h2
            then cons_ok (of_byte (unhex h1 * 16 + unhex h2)) (QueryUnescape s'')
            else Err EscapeError
        | _ => Err EscapeError
        end
      else if Ascii.eqb c "+" then cons_ok " " (QueryUnescape s')
      else cons_ok c (QueryUnescape s')
  end.

(** ** net/http: cookies *)

(** [http.Cookie], with the fields that [SetCookie] of Gin fills in. *)
Record HttpCookie : Type := mkCookie {
  Name : string;
  Value : string;
  Path : string;
  Domain : string;
  MaxAge : Z;
  Secure : bool;
  HttpOnly : bool;
  SameSite : Z
}.

Definition dquote : ascii := ascii_of_nat 34.

Definition validCookieValueByte (b : ascii) : bool :=
  (32 <=? byte_of b) && (byte_of b <? 127) &&
  negb (Ascii.eqb b dquote) && negb (Ascii.eqb b ";") && negb (Ascii.eqb b backslash).

Fixpoint string_filter (f : ascii -> bool) (s : string) : string :=
  match s with
  | EmptyString => EmptyString
  | String c s' => if f c then String c (string_filter f s') else string_filter f s'
  end.

Fixpoint string_forallb (f : ascii -> bool) (s : string) : bool :=
  match s with
  | EmptyString => true
  | String c s' => f c && string_forallb f s'
  end.

Fixpoint string_existsb (f : ascii -> bool) (s : string) : bool :=
  match s with
  | EmptyString => false
  | String c s' => f c || string_existsb f s'
  end.

(** [sanitizeCookieValue(v, false)]: invalid bytes are dropped; a value
    with a space or a comma is wrapped in double quotes. *)
Definition sanitizeCookieValue (v : string) : string :=
  let v' := string_filter validCookieValueByte v in
  match v' with
  | EmptyString => v'
  | String _ _ =>
      if string_existsb (fun c => Ascii.eqb c " " || Ascii.eqb c ",") v'
      then String dquote (v' ++ String dquote EmptyString)
      else v'
  end.

(** What a client that keeps a cookie sends back for it: the name and the
    value as the [Set-Cookie] header carried it. *)
Definition wire_pair (c : HttpCookie) : string * string :=
  (Name c, sanitizeCookieValue (Value c)).

Fixpoint last_char (s : string) : option ascii :=
  match s with
  | EmptyString => None
  | String c EmptyString => Some c
  | String _ s' => last_char s'
  end.

Fixpoint drop_last (s : string) : string :=
  match s with
  | EmptyString => EmptyString
  | String _ EmptyString => EmptyString
  | String c s' => String c (drop_last s')
  end.

(** [parseCookieValue(raw, true)]: surrounding double quotes are
    stripped, then every byte has to be a valid cookie byte. *)
Definition parseCookieValue (raw : string) : option string :=
  let body :=
    match raw with
    | String q (String c rest) =>
        if Ascii.eqb q dquote then
          match last_char (String c rest) with
          | Some l => if Ascii.eqb l dquote then drop_last (String c rest) else raw
          | None => raw
          end
        else raw
    | _ => raw
    end in
  if string_forallb validCookieValueByte body then Some body else None.

(** The part of [http.Request] and of the route that the handlers read:
    the [name=value] pairs of the [Cookie] header in order, the query
    string and the path parameters. *)
Record Request : Type := mkRequest {
  req_cookies : list (string * string);
  req_query : list (string * string);
  req_params : list (string * string)
}.

Definition ErrNoCookie : error := "http: named cookie not present".

(** [readCookies(h, filter)], first hit: pairs with another name or with a
    value that does not parse are passed over. *)
Fixpoint readCookie (pairs : list (string * string)) (filter : string) : option string :=
  match pairs with
  | [] => None
  | (name, raw) :: rest =>
      if String.eqb name filter then
        match parseCookieValue raw with
        | Some v => Some v
        | None => readCookie rest filter
        end
      else readCookie rest filter
  end.

(** [Request.Cookie] of net/http. *)
Definition Request_Cookie (req : Request) (name : string) : result string :=
  match name with
  | EmptyString => Err ErrNoCookie
  | String _ _ =>
      match readCookie (req_cookies req) name with
      | Some v => Ok v
      | None => Err ErrNoCookie
      end
  end.

(** ** Gin: the context *)

(** [c.Cookie]: the error of [QueryUnescape] is dropped, the value is
    then empty. *)
Definition Cookie (req : Request) (name : string) : result string :=
  match Request_Cookie req name with
  | Err e => Err e
  | Ok raw =>
      match QueryUnescape raw with
      | Ok val => Ok val
      | Err _ => Ok EmptyString
      end
  end.

Fixpoint assoc_first (key : string) (pairs : list (string * string)) : option string :=
  match pairs with
  | [] => None
  | (k, v) :: rest => if String.eqb k key then Some v else assoc_first key rest
  end.

(** [c.Query(key)]: the first value of the key, or the empty string. *)
Definition Query (req : Request) (key : string) : string :=
  match assoc_first key (req_query req) with
  | Some v => v
  | None => EmptyString
  end.

(** [c.Param(key)]. *)
Definition Param (req : Request) (key : string) : string :=
  match assoc_first key (req_params req) with
  | Some v => v
  | None => EmptyString
  end.

(** The response writer, as far as cookies go: the [Set-Cookie] headers
    added so far, oldest first. *)
Definition ResponseWriter := list HttpCookie.

(** [c.SetCookie(name, value, maxAge, path, domain, secure, httpOnly)];
    [c.sameSite] is never set by this program and stays zero. *)
Definition SetCookie (w : ResponseWriter) (name value : string) (maxAge : Z)
    (path domain : string) (secure httpOnly : bool) : ResponseWriter :=
  let path' := match path with EmptyString => "/" | String _ _ => path end in
  (w ++ [mkCookie name (QueryEscape value) path' domain maxAge secure httpOnly 0])%list.

(** ** unicode/utf8 and utf16 *)

(** A continuation byte. *)
Definition cont (c : ascii) : bool := in_range 128 191 c.

(** The second byte that the leading byte [b0] of a three-byte
    sequence accepts. *)
Definition second3 (b0 b1 : ascii) : bool :=
  if Ascii.eqb b0 (of_byte 224) then in_range 160 191 b1
  else if Ascii.eqb b0 (of_byte 237) then in_range 128 159 b1
  else cont b1.

(** The same for a four-byte sequence. *)
Definition second4 (b0 b1 : ascii) : bool :=
  if Ascii.eqb b0 (of_byte 240) then in_range 144 191 b1
  else if Ascii.eqb b0 (of_byte 244) then in_range 128 143 b1
  else cont b1.

(** [utf8.DecodeRuneInString] on a string whose first byte is not ASCII:
    the width (2, 3 or 4) of the well-formed sequence at its head, or [0]
    when the head is not well formed (Go then answers [RuneError] with
    width 1). *)
Definition utf8_len (s : string) : nat :=
  match s with
  | EmptyString => 0%nat
  | String b0 rest =>
      if in_range 194 223 b0 then
        match rest with
        | String b1 _ => if cont b1 then 2%nat else 0%nat
        | _ => 0%nat
        end
      else if in_range 224 239 b0 then
        match rest with
        | String b1 (String b2 _) =>
            if second3 b0 b1 && cont b2 then 3%nat else 0%nat
        | _ => 0%nat
        end
      else if in_range 240 244 b0 then
        match rest with
        | String b1 (String b2 (String b3 _)) =>
            if second4 b0 b1 && cont b2 && cont b3 then 4%nat else 0%nat
        | _ => 0%nat
        end
      else 0%nat
  end.

(** [utf8.ValidString], with a count of the continuation bytes still
    owed to a sequence that has been checked at its leading byte. *)
Fixpoint utf8_valid_from (copy : nat) (s : string) : bool :=
  match s with
  | EmptyString => true
  | String b s' =>
      match copy with
      | S k => utf8_valid_from k s'
      | O =>
          if byte_of b <? 128 then utf8_valid_from 0 s'
          else match utf8_len s with
               | O => false
               | S n => utf8_valid_from n s'
               end
      end
  end.

Definition utf8_valid (s : string) : bool := utf8_valid_from 0 s.

(** The bytes of U+FFFD, the replacement character. *)
Definition RuneError : Z := 65533.

Definition bytes (l : list Z) : string :=
  string_of_list_ascii (map of_byte l).

(** [utf8.EncodeRune]. *)
Definition EncodeRune (r : Z) : string :=
  if (0 <=? r) && (r <=? 127) then bytes [r]
  else if (0 <=? r) && (r <=? 2047) then bytes [192 + r / 64; 128 + r mod 64]
  else if (r <? 0) || (1114111 <? r) || ((55296 <=? r) && (r <=? 57343))
  then bytes [239; 191; 189]
  else if r <=? 65535
  then bytes [224 + r / 4096; 128 + (r / 64) mod 64; 128 + r mod 64]
  else bytes [240 + r / 262144; 128 + (r / 4096) mod 64;
              128 + (r / 64) mod 64; 128 + r mod 64].

(** [utf16.IsSurrogate] and [utf16.DecodeRune]. *)
Definition IsSurrogate (r : Z) : bool := (55296 <=? r) && (r <? 57344).

Definition utf16_DecodeRune (r1 r2 : Z) : Z :=
  if (55296 <=? r1) && (r1 <? 56320) && (56320 <=? r2) && (r2 <? 57344)
  then (r1 - 55296) * 1024 + (r2 - 56320) + 65536
  else RuneError.

(** ** encoding/json: Marshal of a [[]string] *)

(** [htmlSafeSet]: the ASCII bytes that are written as they are. *)
Definition htmlSafe (b : ascii) : bool :=
  (32 <=? byte_of b) && (byte_of b <? 128) &&
  negb (Ascii.eqb b dquote) && negb (Ascii.eqb b "&") && negb (Ascii.eqb b "<") &&
  negb (Ascii.eqb b ">") && negb (Ascii.eqb b backslash).

(** The escape of an ASCII byte outside [htmlSafeSet] (backspace and
    form feed as Go 1.22 and later write them; earlier releases write
    [\u0008] and [\u000c], which Unmarshal reads back alike). *)
Definition escape_ascii (b : ascii) : string :=
  if Ascii.eqb b backslash || Ascii.eqb b dquote then String backslash (String b EmptyString)
  else if Ascii.eqb b (of_byte 8) then String backslash "b"
  else if Ascii.eqb b (of_byte 12) then String backslash "f"
  else if Ascii.eqb b (of_byte 10) then String backslash "n"
  else if Ascii.eqb b (of_byte 13) then String backslash "r"
  else if Ascii.eqb b (of_byte 9) then String backslash "t"
  else String backslash
         (String "u" (String "0" (String "0"
           (String (hex_digit lowerhex (byte_of b / 16))
             (String (hex_digit lowerhex (byte_of b mod 16)) EmptyString))))).

(** U+2028 or U+2029 at the head of [s], and its last hexadecimal digit. *)
Definition line_separator (s : string) : option ascii :=
  match s with
  | String b0 (String b1 (String b2 _)) =>
      if Ascii.eqb b0 (of_byte 226) && Ascii.eqb b1 (of_byte 128) then
        if Ascii.eqb b2 (of_byte 168) then Some "8"%char
        else if Ascii.eqb b2 (of_byte 169) then Some "9"%char
        else None
      else None
  | _ => None
  end.

(** The loop of [appendString(dst, src, true)] between the quotes.
    [copy] bytes of a well-formed sequence are still to be written as they
    are, or [drop] bytes of a sequence written as an escape are still to be
    passed over. *)
Fixpoint encode_from (copy drop : nat) (s : string) : string :=
  match s with
  | EmptyString => EmptyString
  | String b s' =>
      match copy, drop with
      | S k, _ => String b (encode_from k drop s')
      | O, S k => encode_from 0 k s'
      | O, O =>
          if byte_of b <? 128 then
            if htmlSafe b then String b (encode_from 0 0 s')
            else escape_ascii b ++ encode_from 0 0 s'
          else
            match utf8_len s with
            | O => String backslash "ufffd" ++ encode_from 0 0 s'
            | S n =>
                match line_separator s with
                | Some d => String backslash "u202" ++ String d (encode_from 0 n s')
                | None => String b (encode_from n 0 s')
                end
            end
      end
  end.

Definition json_string (s : string) : string :=
  String dquote (encode_from 0 0 s ++ String dquote EmptyString).

Fixpoint join (sep : string) (l : list string) : string :=
  match l with
  | [] => EmptyString
  | [x] => x
  | x :: rest => x ++ sep ++ join sep rest
  end.

(** [json.Marshal(groups)]: a nil slice is written as [null], any other
    as an array of string literals.  The error is always nil here. *)
Definition json_Marshal (groups : slice string) : string :=
  match groups with
  | nil_slice => "null"
  | mk_slice l => "[" ++ join "," (map json_string l) ++ "]"
  end.

(** ** encoding/json: the scanner of [checkValid] *)

Inductive parse_state : Type :=
| parseObjectKey
| parseObjectValue
| parseArrayValue.

Inductive step_fn : Type :=
| stateBeginValueOrEmpty | stateBeginValue | stateBeginStringOrEmpty
| stateBeginString | stateEndValue | stateEndTop
| stateInString | stateInStringEsc | stateInStringEscU
| stateInStringEscU1 | stateInStringEscU12 | stateInStringEscU123
| stateNeg | state1 | state0 | stateDot | stateDot0
| stateE | stateESign | stateE0
| stateT | stateTr | stateTru
| stateF | stateFa | stateFal | stateFals
| stateN | stateNu | stateNul
| stateError.

(** [parseState] has the innermost state first; [step = stateError]
    stands for a scanner whose [err] is set. *)
Record scanner : Type := mkScanner {
  step : step_fn;
  endTop : bool;
  parseState : list parse_state
}.

Definition maxNestingDepth : Z := 10000.

Definition isSpace (c : ascii) : bool :=
  Ascii.eqb c " " || Ascii.eqb c (of_byte 9) || Ascii.eqb c (of_byte 13) ||
  Ascii.eqb c (of_byte 10).

Definition scan_error (s : scanner) : scanner :=
  mkScanner stateError (endTop s) (parseState s).

Definition goto (s : scanner) (f : step_fn) : scanner :=
  mkScanner f (endTop s) (parseState s).

Definition pushParseState (s : scanner) (ps : parse_state) (f : step_fn) : scanner :=
  let stack := ps :: parseState s in
  if Z.of_nat (length stack) <=? maxNestingDepth
  then mkScanner f (endTop s) stack
  else mkScanner stateError (endTop s) stack.

Definition popParseState (s : scanner) : scanner :=
  match tl (parseState s) with
  | [] => mkScanner stateEndTop true []
  | stack => mkScanner stateEndValue (endTop s) stack
  end.

Definition do_stateEndTop (s : scanner) (c : ascii) : scanner :=
  if isSpace c then s else scan_error s.

Definition do_stateEndValue (s : scanner) (c : ascii) : scanner :=
  match parseState s with
  | [] => do_stateEndTop (mkScanner stateEndTop true []) c
  | ps :: stack =>
      if isSpace c then goto s stateEndValue
      else
        match ps with
        | parseObjectKey =>
            if Ascii.eqb c ":"
            then mkScanner stateBeginValue (endTop s) (parseObjectValue :: stack)
            else scan_error s
        | parseObjectValue =>
            if Ascii.eqb c ","
            then mkScanner stateBeginString (endTop s) (parseObjectKey :: stack)
            else if Ascii.eqb c "}" then popParseState s
            else scan_error s
        | parseArrayValue =>
            if Ascii.eqb c "," then goto s stateBeginValue
            else if Ascii.eqb c "]" then popParseState s
            else scan_error s
        end
  end.

Definition do_stateBeginValue (s : scanner) (c : ascii) : scanner :=
  if isSpace c then s
  else if Ascii.eqb c "{" then pushParseState s parseObjectKey stateBeginStringOrEmpty
  else if Ascii.eqb c "[" then pushParseState s parseArrayValue stateBeginValueOrEmpty
  else if Ascii.eqb c dquote then goto s stateInString
  else if Ascii.eqb c "-" then goto s stateNeg
  else if Ascii.eqb c "0" then goto s state0
  else if Ascii.eqb c "t" then goto s stateT
  else if Ascii.eqb c "f" then goto s stateF
  else if Ascii.eqb c "n" then goto s stateN
  else if in_range 49 57 c then goto s state1
  else scan_error s.

Definition do_stateBeginString (s : scanner) (c : ascii) : scanner :=
  if isSpace c then s
  else if Ascii.eqb c dquote then goto s stateInString
  else scan_error s.

Definition do_state0 (s : scanner) (c : ascii) : scanner :=
  if Ascii.eqb c "." then goto s stateDot
  else if Ascii.eqb c "e" || Ascii.eqb c "E" then goto s stateE
  else do_stateEndValue s c.

Definition do_stateESign (s : scanner) (c : ascii) : scanner :=
  if in_range 48 57 c then goto s stateE0 else scan_error s.

Definition expect (s : scanner) (c want : ascii) (next : step_fn) : scanner :=
  if Ascii.eqb c want then goto s next else scan_error s.

(** [s.step(s, c)]. *)
Definition scan_step (s : scanner) (c : ascii) : scanner :=
  match step s with
  | stateBeginValueOrEmpty =>
      if isSpace c then s
      else if Ascii.eqb c "]" then do_stateEndValue s c
      else do_stateBeginValue s c
  | stateBeginValue => do_stateBeginValue s c
  | stateBeginStringOrEmpty =>
      if isSpace c then s
      else if Ascii.eqb c "}" then
        do_stateEndValue
          (mkScanner (step s) (endTop s) (parseObjectValue :: tl (parseState s))) c
      else do_stateBeginString s c
  | stateBeginString => do_stateBeginString s c
  | stateEndValue => do_stateEndValue s c
  | stateEndTop => do_stateEndTop s c
  | stateInString =>
      if Ascii.eqb c dquote then goto s stateEndValue
      else if Ascii.eqb c backslash then goto s stateInStringEsc
      else if byte_of c <? 32 then scan_error s
      else s
  | stateInStringEsc =>
      if Ascii.eqb c "b" || Ascii.eqb c "f" || Ascii.eqb c "n" || Ascii.eqb c "r" ||
         Ascii.eqb c "t" || Ascii.eqb c backslash || Ascii.eqb c "/" || Ascii.eqb c dquote
      then goto s stateInString
      else if Ascii.eqb c "u" then goto s stateInStringEscU
      else scan_error s
  | stateInStringEscU => if ishex c then goto s stateInStringEscU1 else scan_error s
  | stateInStringEscU1 => if ishex c then goto s stateInStringEscU12 else scan_error s
  | stateInStringEscU12 => if ishex c then goto s stateInStringEscU123 else scan_error s
  | stateInStringEscU123 => if ishex c then goto s stateInString else scan_error s
  | stateNeg =>
      if Ascii.eqb c "0" then goto s state0
      else if in_range 49 57 c then goto s state1
      else scan_error s
  | state1 => if in_range 48 57 c then s else do_state0 s c
  | state0 => do_state0 s c
  | stateDot => if in_range 48 57 c then goto s stateDot0 else scan_error s
  | stateDot0 =>
      if in_range 48 57 c then s
      else if Ascii.eqb c "e" || Ascii.eqb c "E" then goto s stateE
      else do_stateEndValue s c
  | stateE =>
      if Ascii.eqb c "+" || Ascii.eqb c "-" then goto s stateESign
      else do_stateESign s c
  | stateESign => do_stateESign s c
  | stateE0 => if in_range 48 57 c then s else do_stateEndValue s c
  | stateT => expect s c "r" stateTr
  | stateTr => expect s c "u" stateTru
  | stateTru => expect s c "e" stateEndValue
  | stateF => expect s c "a" stateFa
  | stateFa => expect s c "l" stateFal
  | stateFal => expect s c "s" stateFals
  | stateFals => expect s c "e" stateEndValue
  | stateN => expect s c "u" stateNu
  | stateNu => expect s c "l" stateNul
  | stateNul => expect s c "l" stateEndValue
  | stateError => s
  end.

Fixpoint scan_bytes (s : scanner) (data : string) : scanner :=
  match data with
  | EmptyString => s
  | String c rest => scan_bytes (scan_step s c) rest
  end.

Definition is_error (s : scanner) : bool :=
  match step s with
  | stateError => true
  | _ => false
  end.

(** [scan.eof()] answers [scanEnd]. *)
Definition scan_eof (s : scanner) : bool :=
  if is_error s then false
  else if endTop s then true
  else
    endTop (scan_step s " ").

(** [checkValid(data, scan) == nil]. *)
Definition checkValid (data : string) : bool :=
  scan_eof (scan_bytes (mkScanner stateBeginValue false []) data).

(** ** encoding/json: Unmarshal into a nil [[]string] *)

Fixpoint string_drop (n : nat) (s : string) : string :=
  match n, s with
  | O, _ => s
  | S k, EmptyString => EmptyString
  | S k, String _ s' => string_drop k s'
  end.

(** [getu4]: the value of the [\uXXXX] at the head of [s], or [-1]. *)
Definition getu4 (s : string) : Z :=
  match s with
  | String b (String u (String h1 (String h2 (String h3 (String h4 _))))) =>
      if Ascii.eqb b backslash && Ascii.eqb u "u" &&
         ishex h1 && ishex h2 && ishex h3 && ishex h4
      then ((unhex h1 * 16 + unhex h2) * 16 + unhex h3) * 16 + unhex h4
      else -1
  | _ => -1
  end.

(** The backslash case of [unquoteBytes]; [s] starts at the backslash.
    Answers the bytes written and how many bytes after the backslash belong
    to the escape; [None] where Go gives up. *)
Definition unescape (s : string) : option (string * nat) :=
  match s with
  | String _ (String e _) =>
      if Ascii.eqb e dquote || Ascii.eqb e backslash || Ascii.eqb e "/" ||
         Ascii.eqb e "'"
      then Some (String e EmptyString, 1%nat)
      else if Ascii.eqb e "b" then Some (bytes [8], 1%nat)
      else if Ascii.eqb e "f" then Some (bytes [12], 1%nat)
      else if Ascii.eqb e "n" then Some (bytes [10], 1%nat)
      else if Ascii.eqb e "r" then Some (bytes [13], 1%nat)
      else if Ascii.eqb e "t" then Some (bytes [9], 1%nat)
      else if Ascii.eqb e "u" then
        let rr := getu4 s in
        if rr <? 0 then None
        else if IsSurrogate rr then
          let dec := utf16_DecodeRune rr (getu4 (string_drop 6 s)) in
          if dec =? RuneError then Some (EncodeRune RuneError, 5%nat)
          else Some (EncodeRune dec, 11%nat)
        else Some (EncodeRune rr, 5%nat)
      else None
  | _ => None
  end.

Definition option_map_string (f : string -> string) (o : option string) : option string :=
  match o with
  | Some t => Some (f t)
  | None => None
  end.

(** [unquoteBytes] between the quotes.  A well-formed multi-byte sequence
    is decoded and encoded again by Go, which writes the same bytes;
    [copy] counts the bytes of it still to be written, [drop] the bytes of
    an escape still to be passed over. *)
Fixpoint unquote_from (copy drop : nat) (s : string) : option string :=
  match s with
  | EmptyString => Some EmptyString
  | String c s' =>
      match copy, drop with
      | S k, _ => option_map_string (String c) (unquote_from k drop s')
      | O, S k => unquote_from 0 k s'
      | O, O =>
          if Ascii.eqb c backslash then
            match unescape s with
            | None => None
            | Some (out, n) => option_map_string (append out) (unquote_from 0 n s')
            end
          else if Ascii.eqb c dquote || (byte_of c <? 32) then None
          else if byte_of c <? 128 then option_map_string (String c) (unquote_from 0 0 s')
          else
            match utf8_len s with
            | O => option_map_string (append (EncodeRune RuneError)) (unquote_from 0 0 s')
            | S n => option_map_string (String c) (unquote_from n 0 s')
            end
      end
  end.

Definition unquote (raw : string) : option string := unquote_from 0 0 raw.

(** An element of the top-level array: a string literal (the bytes
    between its quotes), [null], or a value of another kind. *)
Inductive elem : Type :=
| EString (raw : string)
| ENull
| EOther.

(** Where the walk over the array stands: before an element, inside the
    quotes of a string element, or passing over the rest of an element
    ([depth] brackets deep, possibly inside a string). *)
Inductive split_mode : Type :=
| MStart
| MStr (esc : bool)
| MSkip (depth : nat) (instr esc : bool).

(** The elements of a valid array, read from just after its [[]; the
    first component is the rest of the string literal being read. *)
Fixpoint split (m : split_mode) (s : string) : string * list elem :=
  match s with
  | EmptyString => (EmptyString, [])
  | String c s' =>
      match m with
      | MStart =>
          if isSpace c then split MStart s'
          else if Ascii.eqb c "]" then (EmptyString, [])
          else if Ascii.eqb c dquote then
            let (raw, es) := split (MStr false) s' in (EmptyString, EString raw :: es)
          else if Ascii.eqb c "n" then
            (EmptyString, ENull :: snd (split (MSkip 0 false false) s'))
          else if Ascii.eqb c "[" || Ascii.eqb c "{" then
            (EmptyString, EOther :: snd (split (MSkip 1 false false) s'))
          else (EmptyString, EOther :: snd (split (MSkip 0 false false) s'))
      | MStr esc =>
          if esc then
            let (raw, es) := split (MStr false) s' in (String c raw, es)
          else if Ascii.eqb c backslash then
            let (raw, es) := split (MStr true) s' in (String c raw, es)
          else if Ascii.eqb c dquote then
            (EmptyString, snd (split (MSkip 0 false false) s'))
          else
            let (raw, es) := split (MStr false) s' in (String c raw, es)
      | MSkip depth instr esc =>
          if instr then
            if esc then split (MSkip depth true false) s'
            else if Ascii.eqb c backslash then split (MSkip depth true true) s'
            else if Ascii.eqb c dquote then split (MSkip depth false false) s'
            else split m s'
          else if Ascii.eqb c dquote then split (MSkip depth true false) s'
          else if Ascii.eqb c "[" || Ascii.eqb c "{" then
            split (MSkip (S depth) false false) s'
          else if Ascii.eqb c "]" || Ascii.eqb c "}" then
            match depth with
            | O => (EmptyString, [])
            | S d => split (MSkip d false false) s'
            end
          else if Ascii.eqb c "," then
            match depth with
            | O => split MStart s'
            | S _ => split m s'
            end
          else split m s'
      end
  end.

(** What the element leaves in its slot of the slice: the string of a
    string literal; the zero value otherwise. *)
Definition elem_value (e : elem) : string :=
  match e with
  | EString raw =>
      match unquote raw with
      | Some s => s
      | None => EmptyString
      end
  | ENull => EmptyString
  | EOther => EmptyString
  end.

Definition elem_mismatch (e : elem) : bool :=
  match e with
  | EOther => true
  | _ => false
  end.

Fixpoint skip_space (s : string) : string :=
  match s with
  | EmptyString => EmptyString
  | String c s' => if isSpace c then skip_space s' else s
  end.

Definition SyntaxError : error := "json: syntax error".
Definition UnmarshalTypeError : error := "json: cannot unmarshal into Go value of type []string".

(** [json.Unmarshal(data, &groups)] for a nil [groups]: the slice that
    [groups] holds afterwards and the error returned.  Invalid JSON leaves
    [groups] alone; [null] sets it to nil; an array fills it, an element
    that is not a string keeping the zero value (and, unless it is
    [null], being reported); any other value is reported and leaves
    [groups] alone. *)
Definition json_Unmarshal (data : string) : slice string * option error :=
  if checkValid data then
    match skip_space data with
    | EmptyString => (nil_slice, Some SyntaxError)
    | String c rest =>
        if Ascii.eqb c "[" then
          let es := snd (split MStart rest) in
          (mk_slice (map elem_value es),
           if existsb elem_mismatch es then Some UnmarshalTypeError else None)
        else if Ascii.eqb c "n" then (nil_slice, None)
        else (nil_slice, Some UnmarshalTypeError)
    end
  else (nil_slice, Some SyntaxError).

(** ** Session manager *)

Record UserSession : Type := mkSession {
  Username : string;
  Groups : slice string;
  LoggedIn : bool
}.

(** [var session UserSession]. *)
Definition zero_session : UserSession := mkSession EmptyString nil_slice false.

Definition getSession (req : Request) : UserSession :=
  match Cookie req "username" with
  | Err _ => zero_session
  | Ok username =>
      match Cookie req "usergroups" with
      | Err _ => zero_session
      | Ok groupsCookie =>
          let groups := fst (json_Unmarshal groupsCookie) in
          mkSession username groups true
      end
  end.

Definition setSession (w : ResponseWriter) (username : string) (groups : slice string)
    : ResponseWriter :=
  let groupsJSON := json_Marshal groups in
  let w1 := SetCookie w "username" username 3600 "/" EmptyString false true in
  SetCookie w1 "usergroups" groupsJSON 3600 "/" EmptyString false true.

Definition clearSession (w : ResponseWriter) : ResponseWriter :=
  let w1 := SetCookie w "username" EmptyString (-1) "/" EmptyString false true in
  SetCookie w1 "usergroups" EmptyString (-1) "/" EmptyString false true.

(** The request of a client that returns the cookies it was sent. *)
Definition request_with (w : ResponseWriter) : Request :=
  mkRequest (map wire_pair w) [] [].

(** The middleware [authRequired]: [None] lets the request through
    ([c.Next()]), [Some] is the location of the redirect. *)
Definition authRequired (req : Request) : option string :=
  if negb (LoggedIn (getSession req)) then Some "/login" else None.

(** ** strconv.Atoi *)

Definition ErrSyntax : error := "strconv.Atoi: invalid syntax".
Definition ErrRange : error := "strconv.Atoi: value out of range".

(** The decimal digits of [s] read from the left onto [acc]; [None] when
    a byte is not a digit. *)
Fixpoint digits_value (s : string) (acc : Z) : option Z :=
  match s with
  | EmptyString => Some acc
  | String c s' =>
      if in_range 48 57 c then digits_value s' (acc * 10 + (byte_of c - 48))
      else None
  end.

Definition Atoi (s : string) : result Z :=
  let (neg, digits) :=
    match s with
    | String c s' =>
        if Ascii.eqb c "-" then (true, s')
        else if Ascii.eqb c "+" then (false, s')
        else (false, s)
    | EmptyString => (false, s)
    end in
  match digits with
  | EmptyString => Err ErrSyntax
  | String _ _ =>
      match digits_value digits 0 with
      | None => Err ErrSyntax
      | Some n =>
          let v := if neg then - n else n in
          if (int_min <=? v) && (v <=? int_max) then Ok v else Err ErrRange
      end
  end.

(** ** HTTP surface *)

(** What a handler hands to [c.JSON]. *)
Inductive Body : Type :=
| ErrorBody (msg : string)
| EmployeesBody (employees : list Employee)
| EmployeeBody (emp : Employee).

(** The [gin.H] given to the template [index.html]; a key that a handler
    does not set is [None]. *)
Record IndexData : Type := mkIndexData {
  H_Employees : list Employee;
  H_SearchQuery : option string;
  H_ActiveCount : Z;
  H_Username : option string;
  H_TotalCount : option Z
}.

Inductive Response : Type :=
| JSON (code : Z) (obj : Body)
| HTML (code : Z) (name : string) (obj : IndexData)
| Redirect (code : Z) (location : string).

Definition StatusOK : Z := 200.
Definition StatusFound : Z := 302.
Definition StatusBadRequest : Z := 400.
Definition StatusNotFound : Z := 404.
Definition StatusInternalServerError : Z := 500.

Definition working : string := "работает".

(** [activeCount := 0; for _, emp := range employees { if emp.Status ==
    "работает" { activeCount++ } }], from the current value of the
    counter. *)
Fixpoint count_active (employees : list Employee) (activeCount : Z) : Z :=
  match employees with
  | [] => activeCount
  | emp :: rest =>
      if String.eqb (Status emp) working
      then count_active rest (wrap_int (activeCount + 1))
      else count_active rest activeCount
  end.

(** [len(employees)]. *)
Definition len {A : Type} (l : list A) : Z := Z.of_nat (length l).

(** Both variants have the same [apiEmployeesHandler]. *)
Definition apiEmployeesHandler (db : DB) (req : Request) : Response :=
  match getEmployees db with
  | Err e => JSON StatusInternalServerError (ErrorBody e)
  | Ok employees => JSON StatusOK (EmployeesBody employees)
  end.

(** [db.QueryRow(query, id).Scan(...)]. *)
Definition scan_one (o : row_outcome) : result Employee :=
  match o with
  | QueryFailed e => Err e
  | NoRows => Err ErrNoRows
  | OneRow r => scan r
  end.

(** Both variants have the same [getEmployeeHandler]. *)
Definition getEmployeeHandler (db : DB) (req : Request) : Response :=
  let idStr := Param req "id" in
  match Atoi idStr with
  | Err _ => JSON StatusBadRequest (ErrorBody "Invalid ID")
  | Ok id =>
      match scan_one (query_by_id db id) with
      | Err _ => JSON StatusNotFound (ErrorBody "Employee not found")
      | Ok emp => JSON StatusOK (EmployeeBody emp)
      end
  end.

(** The variant with authorization ([main.go]). *)
Module Auth.

Definition indexHandler (db : DB) (req : Request) : Response :=
  let session := getSession req in
  match getEmployees db with
  | Err e => JSON StatusInternalServerError (ErrorBody e)
  | Ok employees =>
      let activeCount := count_active employees 0 in
      HTML StatusOK "index.html"
        (mkIndexData employees None activeCount
           (Some (Username session)) (Some (len employees)))
  end.

Definition searchHandler (db : DB) (req : Request) : Response :=
  let session := getSession req in
  let query := Query req "q" in
  if String.eqb query EmptyString then indexHandler db req
  else
    match searchEmployees db query with
    | Err e => JSON StatusInternalServerError (ErrorBody e)
    | Ok employees =>
        let activeCount := count_active employees 0 in
        HTML StatusOK "index.html"
          (mkIndexData employees (Some query) activeCount
             (Some (Username session)) (Some (len employees)))
    end.

End Auth.

(** The variant without authorization. *)
Module Open.

Definition indexHandler (db : DB) (req : Request) : Response :=
  match getEmployees db with
  | Err e => JSON StatusInternalServerError (ErrorBody e)
  | Ok employees =>
      let activeCount := count_active employees 0 in
      HTML StatusOK "index.html"
        (mkIndexData employees None activeCount None None)
  end.

Definition searchHandler (db : DB) (req : Request) : Response :=
  let query := Query req "q" in
  if String.eqb query EmptyString then indexHandler db req
  else
    match searchEmployees db query with
    | Err e => JSON StatusInternalServerError (ErrorBody e)
    | Ok employees =>
        let activeCount := count_active employees 0 in
        HTML StatusOK "index.html"
          (mkIndexData employees (Some query) activeCount None None)
    end.

End Open.

(** ** The words of the specification *)

(** [t] is a substring of [s]. *)
Definition contains (s t : string) : Prop :=
  exists pre post, s = pre ++ t ++ post.

(** [term] is, case-insensitively, a substring of [field]. *)
Definition ci_contains (L : Locale) (field term : string) : Prop :=
  contains (lc_lower L field) (lc_lower L term).

(** [term] is a case-insensitive substring of the last name, first name,
    middle name, title, phone or email of [e]. *)
Definition term_matches (L : Locale) (term : string) (e : Employee) : Prop :=
  ci_contains L (LastName e) term \/ ci_contains L (FirstName e) term \/
  ci_contains L (MiddleName e) term \/ ci_contains L (Position e) term \/
  ci_contains L (Phone e) term \/ ci_contains L (Email e) term.

(** Ordered by (last name, first name). *)
Definition emp_le (L : Locale) (a b : Employee) : Prop :=
  name_leb L (LastName a) (FirstName a) (LastName b) (FirstName b) = true.

Definition row_le (L : Locale) (a b : Row) : Prop := row_leb L a b = true.

(** The characters that LIKE reads as more than themselves. *)
Definition is_meta (c : ascii) : bool :=
  Ascii.eqb c pct || Ascii.eqb c underscore || Ascii.eqb c backslash.

Definition meta_free (t : string) : bool :=
  string_forallb (fun c => negb (is_meta c)) t.

(** No column of the row is NULL. *)
Definition no_null (r : Row) : bool :=
  match r_middle_name r, r_email r, r_building r, r_comments r, r_status r,
        r_created_at r with
  | Some _, Some _, Some _, Some _, Some _, Some _ => true
  | _, _, _, _, _, _ => false
  end.

Definition or_empty (col : option string) : string :=
  match col with
  | Some s => s
  | None => EmptyString
  end.

(** The record of a row. *)
Definition to_employee (r : Row) : Employee :=
  mkEmployee (r_id r) (r_last_name r) (r_first_name r) (or_empty (r_middle_name r))
    (r_position r) (r_phone r) (or_empty (r_email r)) (or_empty (r_building r))
    (or_empty (r_comments r)) (or_empty (r_status r))
    (match r_created_at r with Some t => t | None => 0 end).

(** A collation is a total preorder. *)
Record CollationOk (L : Locale) : Prop := mkCollationOk {
  leb_total : forall a b, lc_leb L a b = true \/ lc_leb L b a = true;
  leb_trans : forall a b c,
    lc_leb L a b = true -> lc_leb L b c = true -> lc_leb L a c = true
}.

(** Lower-casing works character by character and leaves the characters
    that LIKE reads specially alone. *)
Record LowerOk (L : Locale) : Prop := mkLowerOk {
  lower_wrap : forall t, lc_lower L ("%" ++ t ++ "%") = "%" ++ lc_lower L t ++ "%";
  lower_meta_free : forall t, meta_free t = true -> meta_free (lc_lower L t) = true
}.

(** The number of records of the list whose status is "работает". *)
Definition active_records (l : list Employee) : Z :=
  len (filter (fun e => String.eqb (Status e) working) l).

(** The zero value of [Employee]. *)
Definition zero_employee : Employee :=
  mkEmployee 0 EmptyString EmptyString EmptyString EmptyString EmptyString
    EmptyString EmptyString EmptyString EmptyString 0.

(** A term made of blanks only. *)
Definition whitespace_only (t : string) : bool :=
  string_forallb
    (fun c => Ascii.eqb c " " || in_range 9 13 c) t.

(** The two sets of names are equal. *)
Definition same_set (a b : list string) : Prop :=
  forall g, In g a <-> In g b.

(** *** The "C" locale: bytes compared as numbers, ASCII letters folded *)

Definition ascii_lower (c : ascii) : ascii :=
  if in_range 65 90 c then of_byte (byte_of c + 32) else c.

Fixpoint string_map (f : ascii -> ascii) (s : string) : string :=
  match s with
  | EmptyString => EmptyString
  | String c s' => String (f c) (string_map f s')
  end.

Definition c_locale : Locale := mkLocale String.leb (string_map ascii_lower).

(** ** Sample data *)

(** Rows used in the examples. *)
Definition ivanov_row : Row :=
  mkRow 1 "Ivanov" "Ivan" (Some "Ivanovich") "Developer" "+7-999-123-45-67"
    (Some "ivanov@company.com") (Some "Везде") (Some "Team lead") (Some working) (Some 0).

Definition row_B_X : Row :=
  mkRow 1 "B" "X" (Some "M") "Designer" "1" (Some "b@x") (Some "Везде") (Some "c")
    (Some working) (Some 0).

Definition row_A_Y : Row :=
  mkRow 2 "A" "Y" (Some "M") "Manager" "2" (Some "a@y") (Some "Везде") (Some "c")
    (Some "уволен") (Some 0).

(** A row that the table admits: the middle name is NULL. *)
Definition petrova_row : Row :=
  mkRow 2 "Petrova" "Maria" None "Manager" "+7-999-123-45-68"
    (Some "petrova@company.com") (Some "Везде") (Some "PMO") (Some working) (Some 0).

(** A store that answers, under the "C" locale. *)
Definition c_db (table : list Row) : DB := mkDB c_locale (Up table).

(** Requests with a search term and with an id in the path. *)
Definition request_q (q : string) : Request := mkRequest [] [("q", q)] [].
Definition request_id (id : string) : Request := mkRequest [] [] [("id", id)].

(** ** Devices of the proofs *)

(** A byte that a cookie value carries as it is, outside quotes. *)
Definition plain_cookie_byte (c : ascii) : bool :=
  validCookieValueByte c && negb (Ascii.eqb c " " || Ascii.eqb c ",").

(** How [encode_from] cuts a string into pieces and what it writes for
    each: an ASCII byte kept or escaped, a byte that is not UTF-8 replaced,
    U+2028 and U+2029 escaped, any other well-formed sequence kept. *)
Inductive Encodes : string -> string -> Prop :=
| enc_nil : Encodes EmptyString EmptyString
| enc_plain : forall c s e,
    (byte_of c <? 128) = true -> htmlSafe c = true ->
    Encodes s e -> Encodes (String c s) (String c e)
| enc_esc : forall c s e,
    (byte_of c <? 128) = true -> htmlSafe c = false ->
    Encodes s e -> Encodes (String c s) (escape_ascii c ++ e)
| enc_bad : forall c s e,
    (byte_of c <? 128) = false -> utf8_len (String c s) = 0%nat ->
    Encodes s e -> Encodes (String c s) (String backslash "ufffd" ++ e)
| enc_2028 : forall s e,
    Encodes s e -> Encodes (bytes [226; 128; 168] ++ s) (String backslash "u2028" ++ e)
| enc_2029 : forall s e,
    Encodes s e -> Encodes (bytes [226; 128; 169] ++ s) (String backslash "u2029" ++ e)
| enc_multi : forall b ch s e,
    (byte_of b <? 128) = false ->
    (forall x, utf8_len (String b (ch ++ x)) = S (String.length ch)) ->
    string_forallb cont ch = true ->
    line_separator (String b (ch ++ s)) = None ->
    Encodes s e -> Encodes (String b (ch ++ s)) (String b (ch ++ e)).

(** The element is a string literal. *)
Definition is_string_elem (e : elem) : bool :=
  match e with
  | EString _ => true
  | _ => false
  end.

(** The text is a JSON array whose elements are all string literals. *)
Definition json_array_of_strings (data : string) : bool :=
  checkValid data &&
  match skip_space data with
  | EmptyString => false
  | String c rest =>
      Ascii.eqb c "[" && forallb is_string_elem (snd (split MStart rest))
  end.

(** The element that Marshal writes for the string [s]. *)
Definition literal_of (s : string) : elem := EString (encode_from 0 0 s).

(** ** Configuration *)

(** The environment of the process once [godotenv.Load] has run: the
    variables and their values. *)
Definition Environ := list (string * string).

(** [os.Getenv]: the value of the variable, empty when it is not set. *)
Definition Getenv (env : Environ) (key : string) : string :=
  match assoc_first key env with
  | Some v => v
  | None => EmptyString
  end.

Definition getEnv (env : Environ) (key defaultValue : string) : string :=
  let value := Getenv env key in
  if negb (String.eqb value EmptyString) then value else defaultValue.

(** [type Config struct] of the variant with authorization. *)
Record Config : Type := mkConfig {
  DBHost : string;
  DBPort : string;
  DBUser : string;
  DBPassword : string;
  DBName : string;
  DBTable : string;
  DBSSLMode : string;
  ServerPort : string;
  AuthAPI : string
}.

Definition loadConfig (env : Environ) : Config :=
  mkConfig
    (getEnv env "DB_HOST" "localhost")
    (getEnv env "DB_PORT" "5432")
    (getEnv env "DB_USER" "postgres")
    (getEnv env "DB_PASSWORD" "password")
    (getEnv env "DB_NAME" "phonebook")
    (getEnv env "DB_TABLE" "employees")
    (getEnv env "DB_SSL_MODE" "disable")
    (getEnv env "SERVER_PORT" "8080")
    (getEnv env "AUTH_API" "https://109.it25.su/api/auth?groups=1").

(** The settings of a [Config], in the order of the struct. *)
Definition settings (c : Config) : list string :=
  [DBHost c; DBPort c; DBUser c; DBPassword c; DBName c; DBTable c;
   DBSSLMode c; ServerPort c; AuthAPI c].

(** ** Login, logout and the guarded routes *)

(** [type AuthResponse struct]. *)
Record AuthResponse : Type := mkAuthResponse {
  Success : bool;
  Resp_Groups : slice string
}.

(** What lies outside the program in [checkAuth]: [net_Do] is
    [http.NewRequest] and [client.Do] for a POST of the body to the URL
    (the body of the response, or the error of either call), [net_Decode]
    is [json.NewDecoder(resp.Body).Decode(&authResp)]. *)
Record Network : Type := mkNetwork {
  net_Do : string -> string -> result string;
  net_Decode : string -> result AuthResponse
}.

(** [json.Marshal(authReq)]: the two fields in the order of the struct. *)
Definition authRequestJSON (username password : string) : string :=
  "{" ++ json_string "username" ++ ":" ++ json_string username ++ "," ++
  json_string "password" ++ ":" ++ json_string password ++ "}".

Definition checkAuth (net : Network) (cfg : Config) (username password : string)
    : result AuthResponse :=
  let jsonData := authRequestJSON username password in
  match net_Do net (AuthAPI cfg) jsonData with
  | Err e => Err e
  | Ok body => net_Decode net body
  end.

(** [c.PostForm(key)]: the first value of the field, or the empty
    string. *)
Definition PostForm (form : list (string * string)) (key : string) : string :=
  match assoc_first key form with
  | Some v => v
  | None => EmptyString
  end.

(** What the login and logout handlers answer: the template
    [login.html] with the key [Error] of its [gin.H] ([None] when the key
    is not set), or a redirect. *)
Inductive LoginReply : Type :=
| LoginPage (code : Z) (name : string) (Error : option string)
| LoginRedirect (code : Z) (location : string).

Definition loginHandler (req : Request) : LoginReply :=
  let session := getSession req in
  if LoggedIn session then LoginRedirect StatusFound "/"
  else LoginPage StatusOK "login.html" None.

Definition loginPostHandler (net : Network) (cfg : Config) (w : ResponseWriter)
    (form : list (string * string)) : ResponseWriter * LoginReply :=
  let username := PostForm form "username" in
  let password := PostForm form "password" in
  if String.eqb username EmptyString || String.eqb password EmptyString then
    (w, LoginPage StatusOK "login.html" (Some "Введите логин и пароль"))
  else
    match checkAuth net cfg username password with
    | Err _ =>
        (w, LoginPage StatusOK "login.html"
              (Some "Ошибка подключения к серверу авторизации"))
    | Ok authResp =>
        if negb (Success authResp) then
          (w, LoginPage StatusOK "login.html"
                (Some "Проверьте логин или пароль, ошибка авторизации"))
        else if negb (hasAccess (Resp_Groups authResp)) then
          (w, LoginPage StatusOK "login.html"
                (Some "Обратитесь за доступом к администратору"))
        else
          (setSession w username (Resp_Groups authResp),
           LoginRedirect StatusFound "/")
    end.

Definition logoutHandler (w : ResponseWriter) : ResponseWriter * LoginReply :=
  (clearSession w, LoginRedirect StatusFound "/login").

(** A handler of the group [authorized] of [main]: [authRequired] runs
    first, and its [c.Abort()] keeps the handler from running. *)
Definition authorized (handler : DB -> Request -> Response) (db : DB) (req : Request)
    : Response :=
  match authRequired req with
  | Some location => Redirect StatusFound location
  | None => handler db req
  end.

(** The four routes registered on the group [authorized]. *)
Inductive GuardedRoute : Type :=
| RouteIndex
| RouteSearch
| RouteApiEmployees
| RouteApiEmployee.

Definition guarded_handler (r : GuardedRoute) : DB -> Request -> Response :=
  match r with
  | RouteIndex => Auth.indexHandler
  | RouteSearch => Auth.searchHandler
  | RouteApiEmployees => apiEmployeesHandler
  | RouteApiEmployee => getEmployeeHandler
  end.

Definition serve_guarded (r : GuardedRoute) (db : DB) (req : Request) : Response :=
  authorized (guarded_handler r) db req.

(** Both session cookies reach [getSession]. *)
Definition has_session_cookies (req : Request) : Prop :=
  readCookie (req_cookies req) "username" <> None /\
  readCookie (req_cookies req) "usergroups" <> None.

(** ** What a session keeps of a group name *)

(** The string with every byte that is not part of a well-formed UTF-8
    sequence replaced by U+FFFD; [copy] bytes of a sequence checked at its
    leading byte are still to be kept. *)
Fixpoint coerce_from (copy : nat) (s : string) : string :=
  match s with
  | EmptyString => EmptyString
  | String b s' =>
      match copy with
      | S k => String b (coerce_from k s')
      | O =>
          if byte_of b <? 128 then String b (coerce_from 0 s')
          else
            match utf8_len s with
            | O => EncodeRune RuneError ++ coerce_from 0 s'
            | S n => String b (coerce_from n s')
            end
      end
  end.

Definition coerce (s : string) : string := coerce_from 0 s.

Definition map_slice (f : string -> string) (s : slice string) : slice string :=
  match s with
  | nil_slice => nil_slice
  | mk_slice l => mk_slice (map f l)
  end.

(** ** Bootstrap of the table *)

(** The table on the server: its rows and the next value of the sequence
    behind [id SERIAL]. *)
Record Table : Type := mkTable {
  t_rows : list Row;
  t_serial : Z
}.

(** The server as [createTableIfNotExists] sees it: out of reach, or up
    with or without the table. *)
Inductive Server : Type :=
| ServerDown (e : error)
| ServerUp (table : option Table).

(** What the handlers find on that server. *)
Definition conn_of (s : Server) : Conn :=
  match s with
  | ServerDown e => Down e
  | ServerUp None => Down "pq: relation does not exist"
  | ServerUp (Some t) => Up (t_rows t)
  end.

(** The length that [VARCHAR(n)] counts: characters, that is the bytes
    that do not continue a UTF-8 sequence. *)
Fixpoint char_count (s : string) : Z :=
  match s with
  | EmptyString => 0
  | String b s' => (if cont b then 0 else 1) + char_count s'
  end.

Definition fits (n : Z) (col : option string) : bool :=
  match col with
  | None => true
  | Some s => char_count s <=? n
  end.

(** A CHECK with IN: NULL passes. *)
Definition one_of (values : list string) (col : option string) : bool :=
  match col with
  | None => true
  | Some s => existsb (String.eqb s) values
  end.

Definition buildings : list string := ["Цветоносная"; "Феофанова"; "Везде"; "Удаленный"].
Definition statuses : list string := ["работает"; "уволен"; "внешний"].

Definition max_serial : Z := 2147483647.

(** The constraints that the CREATE TABLE of [createTableIfNotExists]
    puts on a row, the primary key apart. *)
Definition admissible (r : Row) : bool :=
  (1 <=? r_id r) && (r_id r <=? max_serial) &&
  fits 100 (Some (r_last_name r)) && fits 100 (Some (r_first_name r)) &&
  fits 100 (r_middle_name r) && fits 200 (Some (r_position r)) &&
  fits 20 (Some (r_phone r)) && fits 150 (r_email r) &&
  fits 50 (r_building r) && one_of buildings (r_building r) &&
  fits 20 (r_status r) && one_of statuses (r_status r).

(** The nine values of a sample row, in the order of the INSERT. *)
Definition sample_values : list (list string) :=
  [["Иванов"; "Иван"; "Иванович"; "Старший разработчик";
    "+7-999-123-45-67"; "ivanov@company.com"; "Цветоносная";
    "Team lead backend team"; "работает"];
   ["Петрова"; "Мария"; "Сергеевна"; "Менеджер проектов";
    "+7-999-123-45-68"; "petrova@company.com"; "Феофанова";
    "PMO department"; "работает"];
   ["Сидоров"; "Алексей"; "Петрович"; "Бизнес-аналитик";
    "+7-999-123-45-69"; "sidorov@company.com"; "Удаленный";
    "Внешний консультант"; "внешний"];
   ["Козлова"; "Ольга"; "Владимировна"; "Дизайнер";
    "+7-999-123-45-70"; "kozlova@company.com"; "Везде";
    "UI/UX designer"; "работает"]].

Definition nth_value (values : list string) (n : nat) : string :=
  nth n values EmptyString.

(** The row that the INSERT makes of nine values: the id comes from the
    sequence, [created_at] is the time of the statement. *)
Definition inserted_row (id now : Z) (v : list string) : Row :=
  mkRow id (nth_value v 0) (nth_value v 1) (Some (nth_value v 2)) (nth_value v 3)
    (nth_value v 4) (Some (nth_value v 5)) (Some (nth_value v 6))
    (Some (nth_value v 7)) (Some (nth_value v 8)) (Some now).

Fixpoint inserted_rows (id now : Z) (values : list (list string)) : list Row :=
  match values with
  | [] => []
  | v :: rest => inserted_row id now v :: inserted_rows (id + 1) now rest
  end.

Definition constraint_violation : error := "pq: the row violates a constraint of the table".

(** [insertSampleData]: one INSERT of the four rows; the statement adds
    all of them or, when a row breaks a constraint or an id is taken,
    none (the sequence has moved on all the same). *)
Definition insertSampleData (now : Z) (t : Table) : Table * option error :=
  let rows := inserted_rows (t_serial t) now sample_values in
  let serial := t_serial t + len sample_values in
  if forallb admissible rows &&
     forallb (fun r => negb (existsb (fun x => r_id x =? r_id r) (t_rows t))) rows
  then (mkTable (t_rows t ++ rows) serial, None)
  else (mkTable (t_rows t) serial, Some constraint_violation).

(** [createTableIfNotExists] at the time [now]: the state of the server
    afterwards and the error returned. *)
Definition createTableIfNotExists (now : Z) (s : Server) : Server * option error :=
  match s with
  | ServerDown e => (s, Some e)
  | ServerUp table =>
      let t := match table with
               | None => mkTable [] 1
               | Some t => t
               end in
      let count := len (t_rows t) in
      if count =? 0 then
        match insertSampleData now t with
        | (t', Some e) => (ServerUp (Some t'), Some e)
        | (t', None) => (ServerUp (Some t'), None)
        end
      else (ServerUp (Some t), None)
  end.

(** * Proofs *)

(** ** Strings *)

Lemma append_nil_r : forall s : string, s ++ EmptyString = s.
Proof.
  induction s as [|c s IH]; simpl; [reflexivity | now rewrite IH].
Qed.

Lemma append_assoc : forall a b c : string, (a ++ b) ++ c = a ++ (b ++ c).
Proof.
  induction a as [|x a IH]; intros b c; simpl; [reflexivity | now rewrite IH].
Qed.

(** A property of every byte is checked on the 256 of them. *)
Ltac each_byte c :=
  destruct c as [[] [] [] [] [] [] [] []]; vm_compute; try reflexivity; try discriminate.

(** ** Access policy *)

Lemma matches_allowed_In :
  forall g A, matches_allowed g A = true <-> In g A.
Proof.
  intros g A; induction A as [|a A IH]; simpl.
  - split; [discriminate | tauto].
  - destruct (String.eqb_spec g a) as [->|Hne].
    + split; auto.
    + rewrite IH. split; [tauto | intros [H|H]; [congruence | assumption]].
Qed.

Lemma hasAccess_loop_intersects :
  forall G, hasAccess_loop G = true <-> intersects G allowedGroups.
Proof.
  induction G as [|g G IH]; cbn [hasAccess_loop].
  - split; [discriminate | intros (x & [] & _)].
  - destruct (matches_allowed g allowedGroups) eqn:Hm.
    + split; [intros _ | reflexivity].
      exists g; split; [now left | now apply matches_allowed_In].
    + rewrite IH. split.
      * intros (x & Hx & Ha); exists x; split; [now right | assumption].
      * intros (x & [Hx|Hx] & Ha).
        -- subst x. apply matches_allowed_In in Ha. congruence.
        -- exists x; split; assumption.
Qed.

(** C2, as amended: [hasAccess] answers true exactly when the groups share
    a name, compared byte for byte, with the allow-list of the code,
    "Администраторы домена", "sys.admins", "Администрация"; the group
    "sys.admins" alone is let in, "Guests" alone is not. *)
Theorem hasAccess_iff_allowed :
  (forall G : slice string,
      hasAccess G = true <-> intersects (elems G) allowedGroups) /\
  hasAccess (mk_slice ["sys.admins"]) = true /\
  hasAccess (mk_slice ["Guests"]) = false.
Proof.
  split; [|split; reflexivity].
  intros G. unfold hasAccess. apply hasAccess_loop_intersects.
Qed.

(** C2, as the specification words it, fails: "Domain Admins" is on the
    specification's list and [hasAccess] turns it away. *)
Lemma hasAccess_spec_list_counterexample :
  intersects (elems (mk_slice ["Domain Admins"])) spec_allow_list /\
  hasAccess (mk_slice ["Domain Admins"]) = false.
Proof.
  split; [|reflexivity].
  exists "Domain Admins"; split; simpl; auto.
Qed.

(** ** ORDER BY: the server's sort *)

Section Sorting.

Variable L : Locale.
Hypothesis HL : CollationOk L.

Lemma name_leb_true :
  forall l1 f1 l2 f2,
    name_leb L l1 f1 l2 f2 = true <->
    lc_leb L l1 l2 = true /\ (lc_leb L l2 l1 = true -> lc_leb L f1 f2 = true).
Proof.
  intros l1 f1 l2 f2. unfold name_leb.
  destruct (lc_leb L l1 l2), (lc_leb L l2 l1); intuition congruence.
Qed.

Lemma row_le_total : forall a b, row_le L a b \/ row_le L b a.
Proof.
  intros a b. unfold row_le, row_leb. rewrite !name_leb_true.
  destruct (leb_total L HL (r_last_name a) (r_last_name b)) as [H|H];
    destruct (lc_leb L (r_last_name a) (r_last_name b)) eqn:Hab;
    destruct (lc_leb L (r_last_name b) (r_last_name a)) eqn:Hba;
    try discriminate;
    try (left; split; [reflexivity | discriminate]);
    try (right; split; [reflexivity | discriminate]).
  - destruct (leb_total L HL (r_first_name a) (r_first_name b)); [left | right]; auto.
  - destruct (leb_total L HL (r_first_name a) (r_first_name b)); [left | right]; auto.
Qed.

Lemma row_le_trans : forall a b c, row_le L a b -> row_le L b c -> row_le L a c.
Proof.
  intros a b c. unfold row_le, row_leb. rewrite !name_leb_true.
  intros [Hab Hab'] [Hbc Hbc']. split.
  - eapply leb_trans; eauto.
  - intros Hca.
    assert (Hcb : lc_leb L (r_last_name c) (r_last_name b) = true)
      by (eapply leb_trans; eauto).
    assert (Hba : lc_leb L (r_last_name b) (r_last_name a) = true)
      by (eapply leb_trans; eauto).
    eapply leb_trans; eauto.
Qed.

Lemma insert_row_perm :
  forall r l, Permutation (r :: l) (insert_row L r l).
Proof.
  intros r l; induction l as [|x l IH]; simpl.
  - apply Permutation_refl.
  - destruct (row_leb L r x).
    + apply Permutation_refl.
    + eapply perm_trans; [apply perm_swap | apply perm_skip, IH].
Qed.

Lemma order_by_name_perm :
  forall rows, Permutation rows (order_by_name L rows).
Proof.
  induction rows as [|r rows IH]; simpl.
  - apply perm_nil.
  - eapply perm_trans; [apply perm_skip, IH | apply insert_row_perm].
Qed.

Lemma insert_row_sorted :
  forall r l, StronglySorted (row_le L) l -> StronglySorted (row_le L) (insert_row L r l).
Proof.
  intros r l Hs; induction Hs as [|x l Hs IH Hx]; simpl.
  - constructor; constructor.
  - destruct (row_leb L r x) eqn:Hrx.
    + constructor.
      * constructor; assumption.
      * constructor; [exact Hrx|].
        eapply Forall_impl; [|exact Hx]. intros y Hy. eapply row_le_trans; eauto.
    + constructor; [exact IH|].
      assert (Hxr : row_le L x r).
      { destruct (row_le_total r x) as [H|H]; [unfold row_le in H; congruence | exact H]. }
      eapply Permutation_Forall; [apply insert_row_perm|].
      constructor; assumption.
Qed.

Lemma order_by_name_sorted :
  forall rows, StronglySorted (row_le L) (order_by_name L rows).
Proof.
  induction rows as [|r rows IH]; simpl.
  - constructor.
  - apply insert_row_sorted, IH.
Qed.

Lemma sorted_rows_employees :
  forall rows,
    StronglySorted (row_le L) rows ->
    StronglySorted (emp_le L) (map to_employee rows).
Proof.
  intros rows Hs; induction Hs as [|x l Hs IH Hx]; simpl.
  - constructor.
  - constructor; [exact IH|].
    rewrite Forall_map. eapply Forall_impl; [|exact Hx].
    intros y Hy. exact Hy.
Qed.

End Sorting.

(** ** Scanning rows *)

Lemma scan_no_null :
  forall r, no_null r = true -> scan r = Ok (to_employee r).
Proof.
  intros [i l f m p ph e b c s t]. unfold no_null, scan, to_employee; simpl.
  destruct m, e, b, c, s, t; simpl; try discriminate; reflexivity.
Qed.

Lemma scan_null :
  forall r, no_null r = false -> exists e, scan r = Err e.
Proof.
  intros [i l f m p ph e b c s t]. unfold no_null, scan; simpl.
  destruct m, e, b, c, s, t; simpl; try discriminate; eauto.
Qed.

Lemma scan_rows_no_null :
  forall rows acc,
    Forall (fun r => no_null r = true) rows ->
    scan_rows rows acc = Ok (acc ++ map to_employee rows)%list.
Proof.
  induction rows as [|r rows IH]; intros acc Hall; simpl.
  - now rewrite app_nil_r.
  - inversion Hall as [|? ? Hr Hrest]; subst.
    rewrite (scan_no_null r Hr), IH by assumption.
    now rewrite <- app_assoc.
Qed.

Lemma scan_ok_inv :
  forall r e, scan r = Ok e -> no_null r = true /\ e = to_employee r.
Proof.
  intros r e H. destruct (no_null r) eqn:Hn.
  - rewrite (scan_no_null r Hn) in H. inversion H; auto.
  - destruct (scan_null r Hn) as (msg & Hm). congruence.
Qed.

(** The loop returns the records gathered so far followed by those of its
    rows, or nothing at all. *)
Lemma scan_rows_ok_inv :
  forall rows acc l,
    scan_rows rows acc = Ok l -> l = (acc ++ map to_employee rows)%list.
Proof.
  induction rows as [|r rows IH]; intros acc l H; simpl in H.
  - inversion H. now rewrite app_nil_r.
  - destruct (scan r) as [e|msg] eqn:Hs; [|discriminate].
    apply scan_ok_inv in Hs as [_ ->].
    apply IH in H. subst l. now rewrite <- app_assoc.
Qed.

(** ** LIKE *)

Lemma like_pct_unfold :
  forall p t,
    like (String pct p) t =
    like p t || match t with
                | EmptyString => false
                | String _ t' => like (String pct p) t'
                end.
Proof.
  intros p t; destruct t; reflexivity.
Qed.

Lemma like_pct_iff :
  forall p t,
    like (String pct p) t = true <->
    exists pre suf, t = pre ++ suf /\ like p suf = true.
Proof.
  intros p t; induction t as [|c t IH]; rewrite like_pct_unfold.
  - rewrite orb_false_r. split.
    + intros H; exists EmptyString, EmptyString; auto.
    + intros (pre & suf & Heq & H).
      destruct pre; [|discriminate]. simpl in Heq. now subst suf.
  - rewrite orb_true_iff, IH. split.
    + intros [H | (pre & suf & -> & H)].
      * exists EmptyString, (String c t); split; [reflexivity | exact H].
      * exists (String c pre), suf; split; [reflexivity | exact H].
    + intros (pre & suf & Heq & H). destruct pre as [|x pre]; simpl in Heq.
      * subst suf; now left.
      * inversion Heq; subst. right; eauto.
Qed.

Lemma like_plain_char :
  forall c p t,
    is_meta c = false ->
    like (String c p) t =
    match t with
    | EmptyString => false
    | String x t' => Ascii.eqb x c && like p t'
    end.
Proof.
  intros c p t Hc. unfold is_meta in Hc.
  apply orb_false_iff in Hc as [Hc Hb]. apply orb_false_iff in Hc as [Hp Hu].
  simpl. rewrite Hp, Hu, Hb. reflexivity.
Qed.

Lemma like_literal :
  forall q p t,
    meta_free q = true ->
    (like (q ++ p) t = true <-> exists suf, t = q ++ suf /\ like p suf = true).
Proof.
  induction q as [|c q IH]; intros p t Hq.
  - simpl. split; [intros H; eauto | intros (suf & -> & H); exact H].
  - simpl in Hq. apply andb_true_iff in Hq as [Hc Hq].
    apply negb_true_iff in Hc.
    change (String c q ++ p) with (String c (q ++ p)).
    rewrite like_plain_char by assumption.
    destruct t as [|x t].
    + split; [discriminate | intros (suf & Heq & _); discriminate].
    + rewrite andb_true_iff, (IH p t Hq). split.
      * intros [Hx (suf & -> & H)]. apply Ascii.eqb_eq in Hx. subst x.
        exists suf; split; [reflexivity | exact H].
      * intros (suf & Heq & H). inversion Heq; subst.
        split; [apply Ascii.eqb_refl | exists suf; split; [reflexivity | exact H]].
Qed.

Lemma like_any : forall t, like "%" t = true.
Proof.
  intros t. apply like_pct_iff. exists t, EmptyString.
  split; [now rewrite append_nil_r | reflexivity].
Qed.

(** A pattern [%q%] whose [q] has no special character matches the texts
    that contain [q]. *)
Lemma like_contains :
  forall q t,
    meta_free q = true ->
    (like ("%" ++ q ++ "%") t = true <-> contains t q).
Proof.
  intros q t Hq. change ("%" ++ q ++ "%") with (String pct (q ++ "%")).
  rewrite like_pct_iff. split.
  - intros (pre & suf & -> & H). apply like_literal in H as (post & -> & _); [|assumption].
    exists pre, post; reflexivity.
  - intros (pre & post & ->). exists pre, (q ++ post). split; [reflexivity|].
    apply like_literal; [assumption|]. exists post; split; [reflexivity | apply like_any].
Qed.

Lemma ilike_ci_contains :
  forall L text term,
    LowerOk L -> meta_free term = true ->
    (ilike L text ("%" ++ term ++ "%") = true <-> ci_contains L text term).
Proof.
  intros L text term HL Ht. unfold ilike, ci_contains.
  rewrite (lower_wrap L HL). apply like_contains. now apply (lower_meta_free L HL).
Qed.

(** The pattern that [searchEmployees] builds never ends in a lone
    escape character. *)
Lemma search_pattern_ends_in_pct :
  forall query, last_char ("%" ++ query ++ "%") = Some pct.
Proof.
  intros query. change ("%" ++ query ++ "%") with (String pct (query ++ "%")).
  assert (H : forall q, last_char (q ++ "%") = Some pct).
  { induction q as [|c q IH]; [reflexivity|].
    simpl. rewrite IH. destruct (q ++ "%") eqn:E; [|reflexivity].
    destruct q; discriminate. }
  simpl. rewrite H. destruct (query ++ "%") eqn:E; [|reflexivity].
  destruct query; discriminate.
Qed.

(** ** WHERE *)

Lemma sql_true_or :
  forall a b, sql_true (sql_or a b) = sql_true a || sql_true b.
Proof.
  intros [[|]|] [[|]|]; reflexivity.
Qed.

Lemma search_where_no_null :
  forall L term r,
    LowerOk L -> meta_free term = true -> no_null r = true ->
    (sql_true (search_where L ("%" ++ term ++ "%") r) = true <->
     term_matches L term (to_employee r)).
Proof.
  intros L term r HL Ht Hr.
  assert (Hil : forall text,
             ilike L text ("%" ++ term ++ "%") = true <-> ci_contains L text term)
    by (intros text; now apply ilike_ci_contains).
  remember ("%" ++ term ++ "%") as pat eqn:Hpat. clear Hpat.
  unfold search_where, term_matches.
  rewrite !sql_true_or, !orb_true_iff.
  destruct r as [i l f m p ph e b c s t]; unfold no_null in Hr; simpl in *.
  destruct m as [m|]; [|discriminate]. destruct e as [e|]; [|destruct b, c, s, t; discriminate].
  unfold ilike_col; simpl.
  assert (Hif : forall x : bool, (if x then true else false) = x) by (intros []; reflexivity).
  rewrite !Hif, !Hil. tauto.
Qed.

(** ** The "C" locale *)

Lemma string_leb_trans :
  forall a b c, String.leb a b = true -> String.leb b c = true -> String.leb a c = true.
Proof.
  unfold String.leb.
  induction a as [|x a IH]; intros [|y b] [|z c]; simpl; try easy.
  unfold Ascii.compare.
  destruct (N.compare_spec (N_of_ascii x) (N_of_ascii y)) as [Hxy|Hxy|Hxy];
  destruct (N.compare_spec (N_of_ascii y) (N_of_ascii z)) as [Hyz|Hyz|Hyz];
  destruct (N.compare_spec (N_of_ascii x) (N_of_ascii z)) as [Hxz|Hxz|Hxz];
  try easy; try lia.
  apply IH.
Qed.

Lemma c_collation_ok : CollationOk c_locale.
Proof.
  constructor; simpl.
  - apply String.leb_total.
  - apply string_leb_trans.
Qed.

Lemma string_map_app :
  forall f a b, string_map f (a ++ b) = string_map f a ++ string_map f b.
Proof.
  intros f a b; induction a as [|c a IH]; simpl; [reflexivity | now rewrite IH].
Qed.

Lemma ascii_lower_meta : forall c, is_meta (ascii_lower c) = is_meta c.
Proof.
  intros c. each_byte c.
Qed.

Lemma c_lower_ok : LowerOk c_locale.
Proof.
  constructor; simpl.
  - intros t. now rewrite !string_map_app.
  - intros t. unfold meta_free. induction t as [|c t IH]; simpl; [reflexivity|].
    rewrite ascii_lower_meta. intros H. apply andb_true_iff in H as [Hc Ht].
    now rewrite Hc, IH.
Qed.

(** ** Directory service *)

Lemma getEmployees_no_null :
  forall L table,
    Forall (fun r => no_null r = true) table ->
    getEmployees (mkDB L (Up table)) = Ok (map to_employee (order_by_name L table)).
Proof.
  intros L table Hall. unfold getEmployees, query_all; simpl.
  rewrite scan_rows_no_null; [reflexivity|].
  eapply Permutation_Forall; [apply order_by_name_perm | exact Hall].
Qed.

Lemma searchEmployees_no_null :
  forall L table query,
    Forall (fun r => no_null r = true) table ->
    searchEmployees (mkDB L (Up table)) query =
    Ok (map to_employee
          (order_by_name L
             (filter (fun r => sql_true (search_where L ("%" ++ query ++ "%") r)) table))).
Proof.
  intros L table query Hall. unfold searchEmployees, query_search; simpl.
  rewrite scan_rows_no_null; [reflexivity|].
  eapply Permutation_Forall; [apply order_by_name_perm|].
  apply Forall_forall. intros r Hr. apply filter_In in Hr as [Hr _].
  revert r Hr. now apply Forall_forall.
Qed.

(** C8, as amended: on a store that answers and whose rows hold no NULL,
    [getEmployees] returns the record of every row, once each, ordered by
    (last name, first name) ascending under the collation of the store;
    an empty store gives the empty sequence and no error. *)
Theorem getEmployees_every_record_sorted :
  (forall L table,
      CollationOk L ->
      Forall (fun r => no_null r = true) table ->
      exists employees,
        getEmployees (mkDB L (Up table)) = Ok employees /\
        Permutation (map to_employee table) employees /\
        StronglySorted (emp_le L) employees) /\
  (forall L, getEmployees (mkDB L (Up [])) = Ok []).
Proof.
  split; [|reflexivity].
  intros L table HL Hall.
  exists (map to_employee (order_by_name L table)). split; [|split].
  - now apply getEmployees_no_null.
  - apply Permutation_map, order_by_name_perm.
  - apply sorted_rows_employees, order_by_name_sorted, HL.
Qed.

Lemma getEmployees_every_record_sorted_witness :
  exists employees,
    getEmployees (c_db [row_B_X; row_A_Y]) = Ok employees /\
    Permutation (map to_employee [row_B_X; row_A_Y]) employees /\
    StronglySorted (emp_le c_locale) employees.
Proof.
  apply (proj1 getEmployees_every_record_sorted c_locale [row_B_X; row_A_Y]).
  - exact c_collation_ok.
  - repeat constructor.
Defined.

(** The example of the specification: ("B","X") and ("A","Y") come out
    as ("A","Y"), ("B","X"). *)
Example getEmployees_B_X_A_Y :
  getEmployees (c_db [row_B_X; row_A_Y]) = Ok [to_employee row_A_Y; to_employee row_B_X].
Proof.
  reflexivity.
Qed.

(** C8, as the specification words it ("for every store state"), fails:
    with a row whose middle name is NULL in the table, [getEmployees]
    returns the error of the scan and no record at all. *)
Lemma getEmployees_null_counterexample :
  getEmployees (c_db [ivanov_row; petrova_row]) = Err null_to_string /\
  forall employees, getEmployees (c_db [ivanov_row; petrova_row]) <> Ok employees.
Proof.
  assert (H : getEmployees (c_db [ivanov_row; petrova_row]) = Err null_to_string)
    by reflexivity.
  split; [exact H | intros employees; rewrite H; discriminate].
Qed.

(** C3, as amended: for a term without the characters [%], [_] and
    backslash, on a store that answers and whose rows hold no NULL,
    [searchEmployees] returns the record of a row if and only if the term
    is a case-insensitive substring of its last name, first name, middle
    name, title, phone or email; it returns records of the store only,
    ordered by (last name, first name). *)
Theorem searchEmployees_substring :
  forall L table term,
    CollationOk L -> LowerOk L ->
    meta_free term = true ->
    Forall (fun r => no_null r = true) table ->
    exists employees,
      searchEmployees (mkDB L (Up table)) term = Ok employees /\
      (forall r, In r table ->
         (In (to_employee r) employees <-> term_matches L term (to_employee r))) /\
      (forall e, In e employees -> exists r, In r table /\ e = to_employee r) /\
      StronglySorted (emp_le L) employees.
Proof.
  intros L table term HC HL Ht Hall.
  set (keep := fun r => sql_true (search_where L ("%" ++ term ++ "%") r)).
  exists (map to_employee (order_by_name L (filter keep table))).
  assert (Hin : forall r, In r (order_by_name L (filter keep table)) <->
                          In r table /\ keep r = true).
  { intros r. rewrite <- filter_In. split; apply Permutation_in;
      [apply Permutation_sym|]; apply order_by_name_perm. }
  assert (Hkeep : forall r, In r table ->
                            (keep r = true <-> term_matches L term (to_employee r))).
  { intros r Hr. apply search_where_no_null; try assumption.
    revert r Hr. now apply Forall_forall. }
  split; [|split; [|split]].
  - now apply searchEmployees_no_null.
  - intros r Hr. rewrite in_map_iff. split.
    + intros (r' & Heq & Hr'). apply Hin in Hr' as [Hr' Hk].
      rewrite <- Heq. now apply Hkeep.
    + intros Hm. exists r. split; [reflexivity|].
      apply Hin. split; [assumption | now apply Hkeep].
  - intros e He. apply in_map_iff in He as (r & Heq & Hr).
    apply Hin in Hr as [Hr _]. exists r; auto.
  - apply sorted_rows_employees, order_by_name_sorted, HC.
Qed.

Lemma searchEmployees_substring_witness :
  exists employees,
    searchEmployees (c_db [ivanov_row]) "ano" = Ok employees /\
    (forall r, In r [ivanov_row] ->
       (In (to_employee r) employees <->
        term_matches c_locale "ano" (to_employee r))) /\
    (forall e, In e employees -> exists r, In r [ivanov_row] /\ e = to_employee r) /\
    StronglySorted (emp_le c_locale) employees.
Proof.
  apply (searchEmployees_substring c_locale [ivanov_row] "ano").
  - exact c_collation_ok.
  - exact c_lower_ok.
  - reflexivity.
  - repeat constructor.
Defined.

(** The example of the specification: the record with last name "Ivanov"
    is found by "ano" (and by "ANO"), not by "zzz". *)
Example search_ano_zzz :
  searchEmployees (c_db [ivanov_row]) "ano" = Ok [to_employee ivanov_row] /\
  searchEmployees (c_db [ivanov_row]) "ANO" = Ok [to_employee ivanov_row] /\
  searchEmployees (c_db [ivanov_row]) "zzz" = Ok [].
Proof.
  repeat split; reflexivity.
Qed.

(** C3, as the specification words it, fails: the term [i_an_v] is a
    substring of no field of the record, in any case of the letters, and
    [searchEmployees] returns the record all the same, each underscore
    standing for one character of "Ivanov". *)
Lemma search_wildcard_counterexample :
  searchEmployees (c_db [ivanov_row]) "i_an_v" = Ok [to_employee ivanov_row] /\
  ~ term_matches c_locale "i_an_v" (to_employee ivanov_row).
Proof.
  split; [reflexivity|].
  assert (Hno : forall field, ci_contains c_locale field "i_an_v" ->
                              string_existsb (Ascii.eqb underscore) field = true).
  { intros field (pre & post & Heq). simpl in Heq.
    assert (Hl : forall s, string_existsb (Ascii.eqb underscore) (string_map ascii_lower s)
                           = string_existsb (Ascii.eqb underscore) s).
    { induction s as [|c s IH]; simpl; [reflexivity|]. rewrite IH. f_equal.
      clear. each_byte c. }
    rewrite <- Hl, Heq. clear.
    induction pre as [|c pre IH]; simpl; [reflexivity|].
    rewrite IH. apply orb_true_r. }
  unfold term_matches.
  intros [H|[H|[H|[H|[H|H]]]]]; apply Hno in H; vm_compute in H; discriminate.
Qed.

(** ** HTTP surface *)

(** C5, as amended: a search request whose term is empty is answered by
    [indexHandler] before [searchEmployees] is reached, in both variants;
    when [getEmployees] returns a list, the page shows exactly that list,
    in that order, and no search term. *)
Theorem empty_term_lists_all :
  forall db req,
    Query req "q" = EmptyString ->
    Auth.searchHandler db req = Auth.indexHandler db req /\
    Open.searchHandler db req = Open.indexHandler db req /\
    (forall employees,
        getEmployees db = Ok employees ->
        exists data data',
          Auth.searchHandler db req = HTML StatusOK "index.html" data /\
          Open.searchHandler db req = HTML StatusOK "index.html" data' /\
          H_Employees data = employees /\ H_Employees data' = employees /\
          H_SearchQuery data = None /\ H_SearchQuery data' = None).
Proof.
  intros db req Hq.
  unfold Auth.searchHandler, Open.searchHandler. rewrite Hq. simpl.
  split; [reflexivity | split; [reflexivity|]].
  intros employees He. unfold Auth.indexHandler, Open.indexHandler. rewrite He.
  eexists; eexists. repeat split.
Qed.

Lemma empty_term_lists_all_witness :
  Auth.searchHandler (c_db [row_B_X; row_A_Y]) (request_q EmptyString) =
  Auth.indexHandler (c_db [row_B_X; row_A_Y]) (request_q EmptyString) /\
  Open.searchHandler (c_db [row_B_X; row_A_Y]) (request_q EmptyString) =
  Open.indexHandler (c_db [row_B_X; row_A_Y]) (request_q EmptyString) /\
  (forall employees,
      getEmployees (c_db [row_B_X; row_A_Y]) = Ok employees ->
      exists data data',
        Auth.searchHandler (c_db [row_B_X; row_A_Y]) (request_q EmptyString) =
        HTML StatusOK "index.html" data /\
        Open.searchHandler (c_db [row_B_X; row_A_Y]) (request_q EmptyString) =
        HTML StatusOK "index.html" data' /\
        H_Employees data = employees /\ H_Employees data' = employees /\
        H_SearchQuery data = None /\ H_SearchQuery data' = None).
Proof.
  apply (empty_term_lists_all (c_db [row_B_X; row_A_Y]) (request_q EmptyString)).
  reflexivity.
Defined.

(** C5, as the specification words it, fails for a term of blanks: the
    term [" "] is not empty, goes to [searchEmployees] and finds the rows
    with a blank in a searched field, here none, while [getEmployees]
    lists the record of the store. *)
Lemma blank_term_counterexample :
  whitespace_only " " = true /\
  getEmployees (c_db [ivanov_row]) = Ok [to_employee ivanov_row] /\
  Auth.searchHandler (c_db [ivanov_row]) (request_q " ") =
    HTML StatusOK "index.html"
      (mkIndexData [] (Some " ") 0 (Some EmptyString) (Some 0)) /\
  Open.searchHandler (c_db [ivanov_row]) (request_q " ") =
    HTML StatusOK "index.html" (mkIndexData [] (Some " ") 0 None None).
Proof.
  repeat split; reflexivity.
Qed.

(** C6 fails on the code: with the store down, [getEmployeeHandler]
    answers 404 "Employee not found", the answer it gives for an id without
    a record, while [apiEmployeesHandler] (as [indexHandler] and
    [searchHandler]) answers 500 with the error of the store. *)
Theorem store_down_getEmployee_404 :
  getEmployeeHandler (mkDB c_locale (Down "dial tcp: connection refused")) (request_id "1") =
    JSON StatusNotFound (ErrorBody "Employee not found") /\
  getEmployeeHandler (c_db []) (request_id "1") =
    JSON StatusNotFound (ErrorBody "Employee not found") /\
  apiEmployeesHandler (mkDB c_locale (Down "dial tcp: connection refused")) (request_id "1") =
    JSON StatusInternalServerError (ErrorBody "dial tcp: connection refused").
Proof.
  repeat split; reflexivity.
Qed.

Lemma find_no_id :
  forall table id,
    (forall r, In r table -> r_id r <> id) ->
    find (fun r => r_id r =? id) table = None.
Proof.
  intros table id Hno. destruct (find _ table) as [r|] eqn:Hf; [|reflexivity].
  apply find_some in Hf as [Hin Heq]. apply Z.eqb_eq in Heq.
  exfalso. exact (Hno r Hin Heq).
Qed.

(** C7: for an id that no row of the store carries, [getEmployeeHandler]
    answers 404 with the message "Employee not found", whatever the state
    of the store, and so never a 200 (or any other answer) carrying a
    zero-valued [Employee]. *)
Theorem getEmployee_unknown_id_404 :
  forall db req id,
    Atoi (Param req "id") = Ok id ->
    (forall table r, db_conn db = Up table -> In r table -> r_id r <> id) ->
    getEmployeeHandler db req = JSON StatusNotFound (ErrorBody "Employee not found") /\
    (forall code, getEmployeeHandler db req <> JSON code (EmployeeBody zero_employee)).
Proof.
  intros db req id Hid Hno.
  assert (H : getEmployeeHandler db req =
              JSON StatusNotFound (ErrorBody "Employee not found")).
  { unfold getEmployeeHandler. rewrite Hid. unfold query_by_id.
    destruct (db_conn db) as [e|table] eqn:Hc; [reflexivity|].
    rewrite find_no_id; [reflexivity|].
    intros r Hr. exact (Hno table r eq_refl Hr). }
  split; [exact H | intros code; rewrite H; discriminate].
Qed.

Lemma getEmployee_unknown_id_404_witness :
  getEmployeeHandler (c_db [ivanov_row]) (request_id "42") =
    JSON StatusNotFound (ErrorBody "Employee not found") /\
  (forall code,
      getEmployeeHandler (c_db [ivanov_row]) (request_id "42") <>
      JSON code (EmployeeBody zero_employee)).
Proof.
  apply (getEmployee_unknown_id_404 (c_db [ivanov_row]) (request_id "42") 42).
  - reflexivity.
  - intros table r Ht Hr. inversion Ht; subst table.
    destruct Hr as [<-|[]]. vm_compute. discriminate.
Defined.

(** An id with a record is answered with that record. *)
Example getEmployee_known_id :
  getEmployeeHandler (c_db [ivanov_row]) (request_id "1") =
  JSON StatusOK (EmployeeBody (to_employee ivanov_row)).
Proof.
  reflexivity.
Qed.

Lemma wrap_int_small : forall z, int_min <= z <= int_max -> wrap_int z = z.
Proof.
  intros z. unfold wrap_int, int_min, int_max. intros Hz.
  rewrite Z.mod_small; lia.
Qed.

Lemma active_records_bounds :
  forall l, 0 <= active_records l <= len l.
Proof.
  intros l. unfold active_records, len.
  pose proof (filter_length_le (fun e => String.eqb (Status e) working) l). lia.
Qed.

(** The loop counts the records whose status is "работает". *)
Lemma count_active_spec :
  forall l acc,
    0 <= acc -> acc + len l <= int_max ->
    count_active l acc = acc + active_records l.
Proof.
  induction l as [|e l IH]; intros acc H0 Hmax.
  - simpl. unfold active_records, len. simpl. lia.
  - unfold len in Hmax. simpl length in Hmax. rewrite Nat2Z.inj_succ in Hmax.
    fold (len l) in Hmax.
    assert (Hl : 0 <= len l) by (unfold len; lia).
    simpl. unfold active_records. simpl filter.
    destruct (String.eqb (Status e) working).
    + rewrite wrap_int_small by (unfold int_min, int_max in *; lia).
      rewrite IH by lia. unfold active_records, len. simpl length.
      rewrite Nat2Z.inj_succ. lia.
    + rewrite IH by lia. reflexivity.
Qed.

(** C10: whenever the index page or the search page is rendered, in
    either variant, the active count is the number of rendered records
    whose status is "работает", and on the index page of the variant with
    authorization the total count is the length of the rendered list.  (A
    Go slice never has more than [int_max] elements.) *)
Theorem rendered_counts :
  forall db req code name data,
    Auth.indexHandler db req = HTML code name data \/
    Auth.searchHandler db req = HTML code name data \/
    Open.indexHandler db req = HTML code name data \/
    Open.searchHandler db req = HTML code name data ->
    len (H_Employees data) <= int_max ->
    H_ActiveCount data = active_records (H_Employees data) /\
    (Auth.indexHandler db req = HTML code name data ->
     H_TotalCount data = Some (len (H_Employees data))).
Proof.
  intros db req code name data Hr Hlen.
  assert (Hc : forall l, len l <= int_max -> count_active l 0 = active_records l).
  { intros l Hl. rewrite count_active_spec; lia. }
  split.
  - unfold Auth.searchHandler, Open.searchHandler, Auth.indexHandler,
      Open.indexHandler in Hr.
    destruct (String.eqb (Query req "q") EmptyString);
      destruct (getEmployees db) as [l|e];
      destruct (searchEmployees db (Query req "q")) as [l'|e'];
      destruct Hr as [Hr|[Hr|[Hr|Hr]]]; try discriminate Hr;
      inversion Hr; subst data; simpl in *; now apply Hc.
  - unfold Auth.indexHandler. destruct (getEmployees db) as [l|e]; [|discriminate].
    intros Hr'. inversion Hr'; subst data. reflexivity.
Qed.

Lemma rendered_counts_witness :
  H_ActiveCount
    (mkIndexData [to_employee row_A_Y; to_employee row_B_X] None 1
       (Some EmptyString) (Some 2)) =
  active_records
    (H_Employees
       (mkIndexData [to_employee row_A_Y; to_employee row_B_X] None 1
          (Some EmptyString) (Some 2))) /\
  (Auth.indexHandler (c_db [row_B_X; row_A_Y]) (request_q EmptyString) =
   HTML StatusOK "index.html"
     (mkIndexData [to_employee row_A_Y; to_employee row_B_X] None 1
        (Some EmptyString) (Some 2)) ->
   H_TotalCount
     (mkIndexData [to_employee row_A_Y; to_employee row_B_X] None 1
        (Some EmptyString) (Some 2)) =
   Some (len (H_Employees
                (mkIndexData [to_employee row_A_Y; to_employee row_B_X] None 1
                   (Some EmptyString) (Some 2))))).
Proof.
  apply (rendered_counts (c_db [row_B_X; row_A_Y]) (request_q EmptyString)
           StatusOK "index.html").
  - left. reflexivity.
  - vm_compute. discriminate.
Defined.

(** ** Cookies on the wire *)

Lemma QueryUnescape_escape_byte :
  forall c s,
    QueryUnescape (QueryEscape (String c s)) = cons_ok c (QueryUnescape (QueryEscape s)).
Proof.
  intros c s. destruct c as [[] [] [] [] [] [] [] []]; reflexivity.
Qed.

(** What [QueryEscape] writes, [QueryUnescape] reads back. *)
Lemma QueryUnescape_QueryEscape :
  forall s, QueryUnescape (QueryEscape s) = Ok s.
Proof.
  induction s as [|c s IH]; [reflexivity|].
  rewrite QueryUnescape_escape_byte, IH. reflexivity.
Qed.

Lemma QueryEscape_plain_byte :
  forall c s,
    string_forallb plain_cookie_byte (QueryEscape (String c s)) =
    string_forallb plain_cookie_byte (QueryEscape s).
Proof.
  intros c s. destruct c as [[] [] [] [] [] [] [] []]; reflexivity.
Qed.

Lemma QueryEscape_plain :
  forall s, string_forallb plain_cookie_byte (QueryEscape s) = true.
Proof.
  induction s as [|c s IH]; [reflexivity|].
  now rewrite QueryEscape_plain_byte.
Qed.

Lemma plain_bytes_valid :
  forall v,
    string_forallb plain_cookie_byte v = true ->
    string_forallb validCookieValueByte v = true /\
    string_existsb (fun c => Ascii.eqb c " " || Ascii.eqb c ",") v = false.
Proof.
  induction v as [|c v IH]; simpl; [auto|].
  unfold plain_cookie_byte at 1. intros H.
  apply andb_true_iff in H as [H Hv]. apply andb_true_iff in H as [Hc Hn].
  apply negb_true_iff in Hn. destruct (IH Hv) as [IH1 IH2].
  now rewrite Hc, Hn, IH1, IH2.
Qed.

Lemma string_filter_all :
  forall f v, string_forallb f v = true -> string_filter f v = v.
Proof.
  induction v as [|c v IH]; simpl; [reflexivity|].
  intros H. apply andb_true_iff in H as [Hc Hv]. now rewrite Hc, IH.
Qed.

Lemma sanitizeCookieValue_plain :
  forall v, string_forallb plain_cookie_byte v = true -> sanitizeCookieValue v = v.
Proof.
  intros v Hv. destruct (plain_bytes_valid v Hv) as [H1 H2].
  unfold sanitizeCookieValue. rewrite (string_filter_all _ v H1), H2.
  destruct v; reflexivity.
Qed.

Lemma parseCookieValue_plain :
  forall v, string_forallb plain_cookie_byte v = true -> parseCookieValue v = Some v.
Proof.
  intros v Hv. destruct (plain_bytes_valid v Hv) as [H1 _].
  unfold parseCookieValue.
  destruct v as [|q [|c rest]]; try (rewrite H1; reflexivity).
  destruct (Ascii.eqb_spec q dquote) as [->|Hq]; [|rewrite H1; reflexivity].
  simpl in H1. discriminate.
Qed.

(** A value written by [SetCookie] comes back from [c.Cookie] as it was
    given. *)
Lemma wire_roundtrip :
  forall value, 
    match parseCookieValue (sanitizeCookieValue (QueryEscape value)) with
    | Some raw => QueryUnescape raw
    | None => Err ErrNoCookie
    end = Ok value.
Proof.
  intros value.
  rewrite sanitizeCookieValue_plain, parseCookieValue_plain by apply QueryEscape_plain.
  apply QueryUnescape_QueryEscape.
Qed.

(** ** UTF-8 *)

Lemma in_range_spec :
  forall lo hi c, in_range lo hi c = true <-> lo <= byte_of c <= hi.
Proof.
  intros lo hi c. unfold in_range. rewrite andb_true_iff, !Z.leb_le. tauto.
Qed.

Lemma second3_cont : forall b0 b1, second3 b0 b1 = true -> cont b1 = true.
Proof.
  intros b0 b1. unfold second3, cont.
  destruct (Ascii.eqb b0 (of_byte 224)); [|destruct (Ascii.eqb b0 (of_byte 237))];
    rewrite ?in_range_spec; try tauto; lia.
Qed.

Lemma second4_cont : forall b0 b1, second4 b0 b1 = true -> cont b1 = true.
Proof.
  intros b0 b1. unfold second4, cont.
  destruct (Ascii.eqb b0 (of_byte 240)); [|destruct (Ascii.eqb b0 (of_byte 244))];
    rewrite ?in_range_spec; try tauto; lia.
Qed.

(** A well-formed sequence at the head of a string: its continuation
    bytes [ch], and the width does not depend on what follows them. *)
Lemma utf8_len_split :
  forall b s' n,
    utf8_len (String b s') = S n ->
    exists ch rest,
      s' = ch ++ rest /\ String.length ch = n /\
      string_forallb cont ch = true /\
      forall x, utf8_len (String b (ch ++ x)) = S n.
Proof.
  intros b s' n. unfold utf8_len.
  destruct (in_range 194 223 b) eqn:H2.
  { destruct s' as [|b1 r]; [discriminate|].
    destruct (cont b1) eqn:Hc; [|discriminate].
    intros H; inversion H; subst n.
    exists (String b1 EmptyString), r. simpl. rewrite Hc. auto. }
  destruct (in_range 224 239 b) eqn:H3.
  { destruct s' as [|b1 [|b2 r]]; try discriminate.
    destruct (second3 b b1 && cont b2) eqn:Hc; [|discriminate].
    intros H; inversion H; subst n.
    exists (String b1 (String b2 EmptyString)), r. simpl. rewrite Hc.
    apply andb_true_iff in Hc as [Hc1 Hc2].
    rewrite (second3_cont _ _ Hc1), Hc2. auto. }
  destruct (in_range 240 244 b) eqn:H4; [|discriminate].
  destruct s' as [|b1 [|b2 [|b3 r]]]; try discriminate.
  destruct (second4 b b1 && cont b2 && cont b3) eqn:Hc; [|discriminate].
  intros H; inversion H; subst n.
  exists (String b1 (String b2 (String b3 EmptyString))), r. simpl. rewrite Hc.
  apply andb_true_iff in Hc as [Hc Hc3]. apply andb_true_iff in Hc as [Hc1 Hc2].
  rewrite (second4_cont _ _ Hc1), Hc2, Hc3. auto.
Qed.

Lemma high_byte_plain :
  forall b,
    (byte_of b <? 128) = false ->
    Ascii.eqb b backslash = false /\ Ascii.eqb b dquote = false /\
    (byte_of b <? 32) = false.
Proof.
  intros b Hb. each_byte b; auto.
Qed.

Lemma cont_high : forall b, cont b = true -> (byte_of b <? 128) = false.
Proof.
  intros b Hb. apply in_range_spec in Hb. apply Z.ltb_ge. lia.
Qed.

Lemma line_separator_inv :
  forall s d,
    line_separator s = Some d ->
    exists r,
      (s = bytes [226; 128; 168] ++ r /\ d = "8"%char) \/
      (s = bytes [226; 128; 169] ++ r /\ d = "9"%char).
Proof.
  intros s d. unfold line_separator.
  destruct s as [|b0 [|b1 [|b2 r]]]; try discriminate.
  destruct (Ascii.eqb_spec b0 (of_byte 226)) as [->|]; [|discriminate].
  destruct (Ascii.eqb_spec b1 (of_byte 128)) as [->|]; [|discriminate].
  simpl.
  destruct (Ascii.eqb_spec b2 (of_byte 168)) as [->|].
  - intros H; inversion H. exists r; left; auto.
  - destruct (Ascii.eqb_spec b2 (of_byte 169)) as [->|]; [|discriminate].
    intros H; inversion H. exists r; right; auto.
Qed.

(** ** The string encoder of Marshal *)

Lemma encode_step :
  forall b s',
    encode_from 0 0 (String b s') =
    if byte_of b <? 128 then
      if htmlSafe b then String b (encode_from 0 0 s')
      else escape_ascii b ++ encode_from 0 0 s'
    else
      match utf8_len (String b s') with
      | O => String backslash "ufffd" ++ encode_from 0 0 s'
      | S n =>
          match line_separator (String b s') with
          | Some d => String backslash "u202" ++ String d (encode_from 0 n s')
          | None => String b (encode_from n 0 s')
          end
      end.
Proof.
  reflexivity.
Qed.

Lemma encode_copy :
  forall ch x,
    encode_from (String.length ch) 0 (ch ++ x) = ch ++ encode_from 0 0 x.
Proof.
  induction ch as [|c ch IH]; intros x; [reflexivity|].
  simpl. now rewrite IH.
Qed.

Lemma string_length_app :
  forall a b, String.length (a ++ b) = (String.length a + String.length b)%nat.
Proof.
  induction a as [|c a IH]; intros b; simpl; [reflexivity | now rewrite IH].
Qed.

Lemma encode_Encodes_bounded :
  forall n s, (String.length s < n)%nat -> Encodes s (encode_from 0 0 s).
Proof.
  induction n as [|n IH]; intros s Hn; [lia|].
  destruct s as [|b s']; [constructor|].
  simpl in Hn. rewrite encode_step.
  destruct (byte_of b <? 128) eqn:Hb.
  - destruct (htmlSafe b) eqn:Hs; constructor; try assumption; apply IH; lia.
  - destruct (utf8_len (String b s')) as [|k] eqn:Hl.
    + constructor; try assumption. apply IH; lia.
    + destruct (line_separator (String b s')) as [d|] eqn:Hsep.
      * apply line_separator_inv in Hsep as (r & [[Heq ->]|[Heq ->]]);
          inversion Heq; subst b s'; clear Heq;
          assert (k = 2%nat) by (vm_compute in Hl; congruence);
          subst k.
        -- change (String backslash "u202" ++ String "8" (encode_from 0 2 _))
             with (String backslash "u2028" ++ encode_from 0 0 r).
           apply enc_2028. apply IH. simpl in Hn. lia.
        -- change (String backslash "u202" ++ String "9" (encode_from 0 2 _))
             with (String backslash "u2029" ++ encode_from 0 0 r).
           apply enc_2029. apply IH. simpl in Hn. lia.
      * destruct (utf8_len_split b s' k Hl) as (ch & rest & -> & Hlen & Hc & Hx).
        subst k. rewrite encode_copy.
        apply enc_multi; try assumption.
        apply IH. rewrite string_length_app in Hn. lia.
Qed.

Lemma encode_Encodes : forall s, Encodes s (encode_from 0 0 s).
Proof.
  intros s. apply (encode_Encodes_bounded (S (String.length s))). lia.
Qed.

Lemma htmlSafe_plain :
  forall c,
    htmlSafe c = true ->
    Ascii.eqb c backslash = false /\ Ascii.eqb c dquote = false /\
    (byte_of c <? 32) = false /\ (byte_of c <? 128) = true.
Proof.
  intros c H. unfold htmlSafe in H.
  repeat (apply andb_true_iff in H as [H ?]).
  repeat match goal with
         | K : negb _ = true |- _ => apply negb_true_iff in K
         end.
  repeat split; try assumption.
  apply Z.ltb_ge. apply Z.leb_le in H. lia.
Qed.

(** *** The scanner accepts what the encoder writes *)

Lemma scan_bytes_app :
  forall a b sc, scan_bytes sc (a ++ b) = scan_bytes (scan_bytes sc a) b.
Proof.
  induction a as [|c a IH]; intros b sc; simpl; [reflexivity | apply IH].
Qed.

Lemma scan_in_string_plain :
  forall c et ps,
    Ascii.eqb c backslash = false -> Ascii.eqb c dquote = false ->
    (byte_of c <? 32) = false ->
    scan_step (mkScanner stateInString et ps) c = mkScanner stateInString et ps.
Proof.
  intros c et ps H1 H2 H3. unfold scan_step; simpl. now rewrite H2, H1, H3.
Qed.

Lemma scan_in_string_escape :
  forall c et ps,
    (byte_of c <? 128) = true -> htmlSafe c = false ->
    scan_bytes (mkScanner stateInString et ps) (escape_ascii c) =
    mkScanner stateInString et ps.
Proof.
  intros c et ps H1 H2.
  destruct c as [[] [] [] [] [] [] [] []];
    vm_compute in H1; vm_compute in H2; try discriminate; reflexivity.
Qed.

Lemma scan_in_string_high :
  forall x et ps,
    string_forallb cont x = true ->
    scan_bytes (mkScanner stateInString et ps) x = mkScanner stateInString et ps.
Proof.
  induction x as [|c x IH]; intros et ps H; [reflexivity|].
  simpl in H. apply andb_true_iff in H as [Hc Hx].
  destruct (high_byte_plain c (cont_high c Hc)) as (H1 & H2 & H3).
  simpl scan_bytes. rewrite scan_in_string_plain by assumption. now apply IH.
Qed.

Lemma scan_encoded :
  forall s e,
    Encodes s e ->
    forall et ps,
      scan_bytes (mkScanner stateInString et ps) e = mkScanner stateInString et ps.
Proof.
  induction 1 as [|c s e Hb Hs _ IH|c s e Hb Hs _ IH|c s e Hb Hl _ IH
                 |s e _ IH|s e _ IH|b ch s e Hb Hx Hc Hsep _ IH]; intros et ps.
  - reflexivity.
  - destruct (htmlSafe_plain c Hs) as (H1 & H2 & H3 & _).
    simpl scan_bytes. rewrite scan_in_string_plain by assumption. apply IH.
  - rewrite scan_bytes_app, scan_in_string_escape by assumption. apply IH.
  - rewrite scan_bytes_app. apply IH.
  - rewrite scan_bytes_app. apply IH.
  - rewrite scan_bytes_app. apply IH.
  - destruct (high_byte_plain b Hb) as (H1 & H2 & H3).
    simpl scan_bytes. rewrite scan_in_string_plain by assumption.
    rewrite scan_bytes_app, scan_in_string_high by assumption. apply IH.
Qed.

(** *** The walk over the array finds the literals *)

Lemma split_str_plain :
  forall c x,
    Ascii.eqb c backslash = false -> Ascii.eqb c dquote = false ->
    split (MStr false) (String c x) =
    let (raw, es) := split (MStr false) x in (String c raw, es).
Proof.
  intros c x H1 H2. simpl. now rewrite H1, H2.
Qed.

Lemma split_str_escape :
  forall c x,
    (byte_of c <? 128) = true -> htmlSafe c = false ->
    split (MStr false) (escape_ascii c ++ x) =
    let (raw, es) := split (MStr false) x in (escape_ascii c ++ raw, es).
Proof.
  intros c x H1 H2.
  destruct c as [[] [] [] [] [] [] [] []];
    vm_compute in H1; vm_compute in H2; try discriminate;
    cbn; destruct (split (MStr false) x); reflexivity.
Qed.

Lemma split_str_high :
  forall ch x,
    string_forallb cont ch = true ->
    split (MStr false) (ch ++ x) =
    let (raw, es) := split (MStr false) x in (ch ++ raw, es).
Proof.
  induction ch as [|c ch IH]; intros x H.
  - simpl. now destruct (split (MStr false) x).
  - simpl in H. apply andb_true_iff in H as [Hc Hx].
    destruct (high_byte_plain c (cont_high c Hc)) as (H1 & H2 & _).
    change (String c ch ++ x) with (String c (ch ++ x)).
    rewrite split_str_plain, IH by assumption.
    now destruct (split (MStr false) x).
Qed.

Lemma split_encoded :
  forall s e,
    Encodes s e ->
    forall rest,
      split (MStr false) (e ++ String dquote rest) =
      (e, snd (split (MSkip 0 false false) rest)).
Proof.
  induction 1 as [|c s e Hb Hs _ IH|c s e Hb Hs _ IH|c s e Hb Hl _ IH
                 |s e _ IH|s e _ IH|b ch s e Hb Hx Hc Hsep _ IH]; intros rest.
  - reflexivity.
  - destruct (htmlSafe_plain c Hs) as (H1 & H2 & _).
    change (String c e ++ String dquote rest) with (String c (e ++ String dquote rest)).
    rewrite split_str_plain, IH by assumption. reflexivity.
  - rewrite append_assoc, split_str_escape, IH by assumption. reflexivity.
  - rewrite append_assoc. cbn. rewrite IH. reflexivity.
  - rewrite append_assoc. cbn. rewrite IH. reflexivity.
  - rewrite append_assoc. cbn. rewrite IH. reflexivity.
  - destruct (high_byte_plain b Hb) as (H1 & H2 & _).
    change (String b (ch ++ e) ++ String dquote rest)
      with (String b ((ch ++ e) ++ String dquote rest)).
    rewrite split_str_plain, append_assoc, split_str_high, IH by assumption.
    reflexivity.
Qed.

(** *** Unquoting gives the string back *)

Lemma unquote_copy :
  forall ch x,
    unquote_from (String.length ch) 0 (ch ++ x) =
    option_map_string (append ch) (unquote_from 0 0 x).
Proof.
  induction ch as [|c ch IH]; intros x.
  - simpl. now destruct (unquote_from 0 0 x).
  - simpl. rewrite IH. now destruct (unquote_from 0 0 x).
Qed.

Lemma utf8_valid_copy :
  forall ch x, utf8_valid_from (String.length ch) (ch ++ x) = utf8_valid_from 0 x.
Proof.
  induction ch as [|c ch IH]; intros x; [reflexivity | simpl; apply IH].
Qed.

Lemma unquote_plain :
  forall c x,
    Ascii.eqb c backslash = false -> Ascii.eqb c dquote = false ->
    (byte_of c <? 32) = false -> (byte_of c <? 128) = true ->
    unquote_from 0 0 (String c x) = option_map_string (String c) (unquote_from 0 0 x).
Proof.
  intros c x H1 H2 H3 H4. simpl. now rewrite H1, H2, H3, H4.
Qed.

Lemma unquote_drop :
  forall pre x, unquote_from 0 (String.length pre) (pre ++ x) = unquote_from 0 0 x.
Proof.
  induction pre as [|c pre IH]; intros x; [reflexivity | simpl; apply IH].
Qed.

Lemma unquote_backslash :
  forall s' out n,
    unescape (String backslash s') = Some (out, n) ->
    unquote_from 0 0 (String backslash s') =
    option_map_string (append out) (unquote_from 0 n s').
Proof.
  intros s' out n H. cbn [unquote_from].
  replace (Ascii.eqb backslash backslash) with true by reflexivity.
  now rewrite H.
Qed.

(** The escape of an ASCII byte is a backslash and a tail that
    [unescape] reads back as that byte. *)
Lemma escape_ascii_unescape :
  forall c,
    (byte_of c <? 128) = true -> htmlSafe c = false ->
    (forall x, escape_ascii c ++ x =
               String backslash (string_drop 1 (escape_ascii c) ++ x)) /\
    (forall x, unescape (String backslash (string_drop 1 (escape_ascii c) ++ x)) =
               Some (String c EmptyString, String.length (string_drop 1 (escape_ascii c)))).
Proof.
  intros c H1 H2.
  destruct c as [[] [] [] [] [] [] [] []];
    vm_compute in H1; vm_compute in H2; try discriminate;
    split; intros x; reflexivity.
Qed.

Lemma unquote_escape :
  forall c x,
    (byte_of c <? 128) = true -> htmlSafe c = false ->
    unquote_from 0 0 (escape_ascii c ++ x) =
    option_map_string (String c) (unquote_from 0 0 x).
Proof.
  intros c x H1 H2.
  destruct (escape_ascii_unescape c H1 H2) as [Hshape Hun].
  rewrite Hshape, (unquote_backslash _ _ _ (Hun x)), unquote_drop.
  now destruct (unquote_from 0 0 x).
Qed.

Lemma unquote_encoded :
  forall s e,
    Encodes s e -> utf8_valid s = true -> unquote e = Some s.
Proof.
  unfold unquote, utf8_valid.
  induction 1 as [|c s e Hb Hs _ IH|c s e Hb Hs _ IH|c s e Hb Hl _ IH
                 |s e _ IH|s e _ IH|b ch s e Hb Hx Hc Hsep _ IH]; intros Hv.
  - reflexivity.
  - destruct (htmlSafe_plain c Hs) as (H1 & H2 & H3 & H4).
    simpl in Hv. rewrite Hb in Hv.
    rewrite unquote_plain, IH by assumption. reflexivity.
  - simpl in Hv. rewrite Hb in Hv.
    rewrite unquote_escape, IH by assumption. reflexivity.
  - exfalso. cbn [utf8_valid_from] in Hv. rewrite Hb, Hl in Hv. discriminate.
  - cbn in Hv |- *. rewrite IH by assumption. reflexivity.
  - cbn in Hv |- *. rewrite IH by assumption. reflexivity.
  - destruct (high_byte_plain b Hb) as (H1 & H2 & H3).
    cbn [utf8_valid_from] in Hv. rewrite Hb, (Hx s), utf8_valid_copy in Hv.
    cbn [unquote_from]. rewrite H1, H2, H3, Hb, (Hx e). cbn [orb].
    rewrite unquote_copy, IH by assumption. reflexivity.
Qed.

(** ** Marshal and Unmarshal of a list of groups *)

Lemma join_cons2 :
  forall sep x y l, join sep (x :: y :: l) = x ++ sep ++ join sep (y :: l).
Proof.
  reflexivity.
Qed.

Lemma json_string_app :
  forall s x,
    json_string s ++ x = String dquote (encode_from 0 0 s ++ String dquote x).
Proof.
  intros s x. unfold json_string. simpl. now rewrite append_assoc.
Qed.

Lemma scan_literal :
  forall s x et ps,
    scan_bytes (mkScanner stateInString et ps) (encode_from 0 0 s ++ String dquote x) =
    scan_bytes (mkScanner stateEndValue et ps) x.
Proof.
  intros s x et ps.
  rewrite scan_bytes_app, (scan_encoded s _ (encode_Encodes s)). reflexivity.
Qed.

Lemma scan_elements :
  forall l x st,
    st = stateBeginValue \/ st = stateBeginValueOrEmpty ->
    scan_bytes (mkScanner st false [parseArrayValue])
      (join "," (map json_string (x :: l)) ++ "]") =
    mkScanner stateEndTop true [].
Proof.
  induction l as [|y l IH]; intros x st Hst.
  - simpl join. rewrite json_string_app.
    destruct Hst as [-> | ->]; cbn [scan_bytes];
      (replace (scan_step _ dquote) with (mkScanner stateInString false [parseArrayValue])
        by reflexivity);
      rewrite scan_literal; reflexivity.
  - change (map json_string (x :: y :: l))
      with (json_string x :: json_string y :: map json_string l).
    rewrite join_cons2, append_assoc, json_string_app.
    destruct Hst as [-> | ->]; cbn [scan_bytes];
      (replace (scan_step _ dquote) with (mkScanner stateInString false [parseArrayValue])
        by reflexivity);
      rewrite scan_literal, append_assoc; cbn [append scan_bytes];
      (replace (scan_step _ ","%char) with (mkScanner stateBeginValue false [parseArrayValue])
        by reflexivity);
      apply (IH y stateBeginValue); now left.
Qed.

(** Marshal writes valid JSON. *)
Lemma checkValid_Marshal :
  forall groups, checkValid (json_Marshal groups) = true.
Proof.
  intros [|l]; [reflexivity|].
  unfold json_Marshal, checkValid. destruct l as [|x l]; [reflexivity|].
  change ("[" ++ join "," (map json_string (x :: l)) ++ "]")
    with (String "[" (join "," (map json_string (x :: l)) ++ "]")).
  cbn [scan_bytes].
  replace (scan_step _ "["%char)
    with (mkScanner stateBeginValueOrEmpty false [parseArrayValue]) by reflexivity.
  rewrite scan_elements by now right. reflexivity.
Qed.

Lemma split_elements :
  forall l x,
    split MStart (join "," (map json_string (x :: l)) ++ "]") =
    (EmptyString, map literal_of (x :: l)).
Proof.
  induction l as [|y l IH]; intros x.
  - simpl join. rewrite json_string_app. cbn [split].
    replace (isSpace dquote) with false by reflexivity.
    replace (Ascii.eqb dquote "]") with false by reflexivity.
    replace (Ascii.eqb dquote dquote) with true by reflexivity.
    rewrite (split_encoded x _ (encode_Encodes x)). reflexivity.
  - change (map json_string (x :: y :: l))
      with (json_string x :: json_string y :: map json_string l).
    rewrite join_cons2, append_assoc, json_string_app. cbn [split].
    replace (isSpace dquote) with false by reflexivity.
    replace (Ascii.eqb dquote "]") with false by reflexivity.
    replace (Ascii.eqb dquote dquote) with true by reflexivity.
    rewrite (split_encoded x _ (encode_Encodes x)), append_assoc.
    cbn [append split].
    replace (Ascii.eqb "," dquote) with false by reflexivity.
    replace (Ascii.eqb "," "[" || Ascii.eqb "," "{") with false by reflexivity.
    replace (Ascii.eqb "," "]" || Ascii.eqb "," "}") with false by reflexivity.
    replace (Ascii.eqb "," ",") with true by reflexivity.
    change (json_string y :: map json_string l) with (map json_string (y :: l)).
    rewrite (IH y). reflexivity.
Qed.

Lemma split_Marshal :
  forall l,
    snd (split MStart (join "," (map json_string l) ++ "]")) = map literal_of l.
Proof.
  intros [|x l]; [reflexivity|]. now rewrite split_elements.
Qed.

Lemma elem_value_literals :
  forall l,
    Forall (fun g => utf8_valid g = true) l ->
    map elem_value (map literal_of l) = l.
Proof.
  induction 1 as [|g l Hg _ IH]; [reflexivity|].
  simpl. rewrite IH.
  now rewrite (unquote_encoded g _ (encode_Encodes g) Hg).
Qed.

Lemma literals_no_mismatch :
  forall l, existsb elem_mismatch (map literal_of l) = false.
Proof.
  induction l as [|g l IH]; [reflexivity | exact IH].
Qed.

Lemma literals_all_strings :
  forall l, forallb is_string_elem (map literal_of l) = true.
Proof.
  induction l as [|g l IH]; [reflexivity | exact IH].
Qed.

(** Unmarshal reads back, without error, the groups that Marshal wrote
    when their names are valid UTF-8. *)
Lemma Unmarshal_Marshal :
  forall groups,
    Forall (fun g => utf8_valid g = true) (elems groups) ->
    json_Unmarshal (json_Marshal groups) = (groups, None).
Proof.
  intros [|l] Hv; [reflexivity|].
  unfold json_Unmarshal. rewrite checkValid_Marshal.
  unfold json_Marshal.
  change ("[" ++ join "," (map json_string l) ++ "]")
    with (String "[" (join "," (map json_string l) ++ "]")).
  cbn [skip_space].
  replace (isSpace "[") with false by reflexivity.
  replace (Ascii.eqb "[" "[") with true by reflexivity.
  cbv zeta. rewrite split_Marshal, literals_no_mismatch, elem_value_literals by exact Hv.
  reflexivity.
Qed.

(** For a slice that is not nil, Marshal writes a JSON array of string
    literals, whatever the bytes of the names. *)
Lemma Marshal_array_of_strings :
  forall l, json_array_of_strings (json_Marshal (mk_slice l)) = true.
Proof.
  intros l. unfold json_array_of_strings. rewrite checkValid_Marshal.
  unfold json_Marshal.
  change ("[" ++ join "," (map json_string l) ++ "]")
    with (String "[" (join "," (map json_string l) ++ "]")).
  cbn [skip_space].
  replace (isSpace "[") with false by reflexivity.
  replace (Ascii.eqb "[" "[") with true by reflexivity.
  rewrite split_Marshal, literals_all_strings. reflexivity.
Qed.

(** ** Session manager *)

(** [getSession] answers the zero session when a cookie is missing (a
    cookie whose value net/http cannot parse counts as missing). *)
Lemma getSession_missing_cookie :
  forall req,
    readCookie (req_cookies req) "username" = None \/
    readCookie (req_cookies req) "usergroups" = None ->
    getSession req = zero_session.
Proof.
  intros req H. unfold getSession, Cookie, Request_Cookie.
  destruct H as [H|H].
  - cbn [append]. now rewrite H.
  - destruct (readCookie (req_cookies req) "username") as [raw|]; [|reflexivity].
    destruct (QueryUnescape raw); cbn; now rewrite H.
Qed.

Lemma getSession_no_cookies :
  forall q p, getSession (mkRequest [] q p) = zero_session.
Proof.
  intros q p. apply getSession_missing_cookie. now left.
Qed.

(** Once both cookies are there, nothing else is looked at: the session
    is logged in whatever the cookies hold. *)
Lemma getSession_logged_in_iff :
  forall req,
    LoggedIn (getSession req) = true <->
    readCookie (req_cookies req) "username" <> None /\
    readCookie (req_cookies req) "usergroups" <> None.
Proof.
  intros req. split.
  - intros H. split; intros Hn;
      rewrite getSession_missing_cookie in H by auto; discriminate.
  - intros [H1 H2]. unfold getSession, Cookie, Request_Cookie. cbn [append].
    destruct (readCookie (req_cookies req) "username") as [raw1|]; [|congruence].
    destruct (readCookie (req_cookies req) "usergroups") as [raw2|]; [|congruence].
    destruct (QueryUnescape raw1), (QueryUnescape raw2); reflexivity.
Qed.

(** C1 fails on the code: with both cookies present and a [usergroups]
    value that is not JSON, Unmarshal returns an error, [getSession] drops
    it and answers a logged-in session with the user name of the cookie and
    no groups. *)
Theorem getSession_malformed_groups :
  snd (json_Unmarshal "not json") = Some SyntaxError /\
  Cookie (mkRequest [("username", "ivanov"); ("usergroups", "not+json")] [] [])
    "usergroups" = Ok "not json" /\
  getSession (mkRequest [("username", "ivanov"); ("usergroups", "not+json")] [] []) =
    mkSession "ivanov" nil_slice true.
Proof.
  repeat split; reflexivity.
Qed.

Lemma getSession_after_setSession :
  forall u G,
    getSession (request_with (setSession [] u G)) =
    mkSession u (fst (json_Unmarshal (json_Marshal G))) true.
Proof.
  intros u G. unfold getSession, Cookie, Request_Cookie, request_with, setSession,
    SetCookie, wire_pair.
  cbn [app map req_cookies Name Value readCookie append].
  replace (String.eqb "username" "username") with true by reflexivity.
  replace (String.eqb "username" "usergroups") with false by reflexivity.
  replace (String.eqb "usergroups" "usergroups") with true by reflexivity.
  rewrite !sanitizeCookieValue_plain, !parseCookieValue_plain by apply QueryEscape_plain.
  rewrite !QueryUnescape_QueryEscape. reflexivity.
Qed.

(** C4, as amended: for every user name and every list of groups whose
    names are valid UTF-8, [getSession] on the two cookies written by
    [setSession] answers a logged-in session with that user name and those
    groups (the same list, hence the same set). *)
Theorem session_roundtrip :
  forall u G,
    Forall (fun g => utf8_valid g = true) (elems G) ->
    LoggedIn (getSession (request_with (setSession [] u G))) = true /\
    Username (getSession (request_with (setSession [] u G))) = u /\
    same_set (elems (Groups (getSession (request_with (setSession [] u G))))) (elems G) /\
    Groups (getSession (request_with (setSession [] u G))) = G.
Proof.
  intros u G Hv. rewrite getSession_after_setSession, Unmarshal_Marshal by exact Hv.
  simpl. repeat split; auto.
Qed.

Lemma session_roundtrip_witness :
  LoggedIn (getSession (request_with
     (setSession [] "ivanov" (mk_slice ["sys.admins"; "Администрация"])))) = true /\
  Username (getSession (request_with
     (setSession [] "ivanov" (mk_slice ["sys.admins"; "Администрация"])))) = "ivanov" /\
  same_set
    (elems (Groups (getSession (request_with
       (setSession [] "ivanov" (mk_slice ["sys.admins"; "Администрация"]))))))
    (elems (mk_slice ["sys.admins"; "Администрация"])) /\
  Groups (getSession (request_with
     (setSession [] "ivanov" (mk_slice ["sys.admins"; "Администрация"])))) =
  mk_slice ["sys.admins"; "Администрация"].
Proof.
  apply (session_roundtrip "ivanov" (mk_slice ["sys.admins"; "Администрация"])).
  repeat constructor.
Defined.

(** C4, as the specification words it, fails for a name that is not
    UTF-8: Marshal writes the byte FF as the escape of U+FFFD, and the
    session that comes back holds the three bytes of U+FFFD instead. *)
Lemma session_roundtrip_counterexample :
  Groups (getSession (request_with (setSession [] "ivanov" (mk_slice [bytes [255]])))) =
    mk_slice [bytes [239; 191; 189]] /\
  ~ same_set
      (elems (Groups (getSession
         (request_with (setSession [] "ivanov" (mk_slice [bytes [255]]))))))
      (elems (mk_slice [bytes [255]])).
Proof.
  assert (H : Groups (getSession
                (request_with (setSession [] "ivanov" (mk_slice [bytes [255]])))) =
              mk_slice [bytes [239; 191; 189]]) by reflexivity.
  split; [exact H|]. rewrite H. intros Hs.
  destruct (proj2 (Hs (bytes [255])) (or_introl eq_refl)) as [Heq|[]].
  discriminate Heq.
Qed.

(** C9, as amended: [setSession] adds two cookies, [username] holding
    the user name and [usergroups] holding the JSON text of the groups
    (both percent-encoded by Gin, and read back as given); the JSON text is
    an array of string literals, or [null] when the slice of groups is nil;
    each cookie has Max-Age 3600, path "/", no Domain attribute (the
    browser returns it to the host that set it only) and HttpOnly; it is
    not marked Secure and carries no SameSite attribute. *)
Theorem setSession_cookies :
  forall w u G,
    exists c1 c2,
      setSession w u G = (w ++ [c1; c2])%list /\
      Name c1 = "username" /\ Value c1 = QueryEscape u /\
      QueryUnescape (Value c1) = Ok u /\
      Name c2 = "usergroups" /\ Value c2 = QueryEscape (json_Marshal G) /\
      QueryUnescape (Value c2) = Ok (json_Marshal G) /\
      match G with
      | nil_slice => json_Marshal G = "null"
      | mk_slice _ => json_array_of_strings (json_Marshal G) = true
      end /\
      Forall (fun c => MaxAge c = 3600 /\ Path c = "/" /\ Domain c = EmptyString /\
                       HttpOnly c = true /\ Secure c = false /\ SameSite c = 0)
        [c1; c2].
Proof.
  intros w u G. unfold setSession, SetCookie. eexists; eexists.
  split; [rewrite <- app_assoc; reflexivity|].
  cbn [Name Value MaxAge Path Domain HttpOnly Secure SameSite].
  rewrite !QueryUnescape_QueryEscape.
  repeat split; try reflexivity.
  - destruct G as [|l]; [reflexivity | apply Marshal_array_of_strings].
  - repeat constructor.
Qed.

(** C9, as the specification words it, fails for the nil slice: the
    [usergroups] cookie then holds [null], which is no JSON array. *)
Lemma setSession_nil_counterexample :
  setSession [] "ivanov" nil_slice =
    [mkCookie "username" "ivanov" "/" EmptyString 3600 false true 0;
     mkCookie "usergroups" "null" "/" EmptyString 3600 false true 0] /\
  json_array_of_strings "null" = false.
Proof.
  split; reflexivity.
Qed.

(** * Further properties of the code *)

(** ** Configuration *)

Lemma getEnv_not_empty :
  forall env key defaultValue,
    defaultValue <> EmptyString -> getEnv env key defaultValue <> EmptyString.
Proof.
  intros env key d Hd. unfold getEnv.
  destruct (String.eqb_spec (Getenv env key) EmptyString) as [He|Hne]; simpl; assumption.
Qed.

(** X1: whatever the environment, [loadConfig] leaves no setting empty:
    each is the value of its variable when that is set and not empty, and
    its (non-empty) default otherwise, also for a variable set to the empty
    string. *)
Theorem loadConfig_no_empty_setting :
  forall env,
    Forall (fun v => v <> EmptyString) (settings (loadConfig env)) /\
    (forall key d v,
        assoc_first key env = Some v -> v <> EmptyString -> getEnv env key d = v) /\
    (forall key d,
        assoc_first key env = None \/ assoc_first key env = Some EmptyString ->
        getEnv env key d = d).
Proof.
  intros env. split; [|split].
  - unfold settings, loadConfig; simpl.
    repeat constructor; apply getEnv_not_empty; discriminate.
  - intros key d v Hk Hv. unfold getEnv, Getenv. rewrite Hk.
    destruct (String.eqb_spec v EmptyString); [contradiction | reflexivity].
  - intros key d [Hk|Hk]; unfold getEnv, Getenv; rewrite Hk; reflexivity.
Qed.

(** ** Access policy *)

(** X2: access is a matter of the set of groups only: groups that hold
    every name of a list with access have access too, so neither the
    order, nor repeats, nor further groups matter; without groups (nil or
    empty) there is no access. *)
Theorem hasAccess_monotone :
  (forall G G' : slice string,
      (forall g, In g (elems G) -> In g (elems G')) ->
      hasAccess G = true -> hasAccess G' = true) /\
  hasAccess nil_slice = false /\ hasAccess (mk_slice []) = false.
Proof.
  split; [|split; reflexivity].
  intros G G' Hsub. unfold hasAccess. rewrite !hasAccess_loop_intersects.
  intros (g & Hg & Ha). exists g. split; [apply Hsub, Hg | exact Ha].
Qed.

Lemma hasAccess_monotone_witness :
  hasAccess (mk_slice ["Guests"; "sys.admins"; "Guests"]) = true.
Proof.
  apply (proj1 hasAccess_monotone (mk_slice ["sys.admins"])
           (mk_slice ["Guests"; "sys.admins"; "Guests"])).
  - intros g [<-|[]]. simpl. auto.
  - reflexivity.
Defined.

(** ** The gate *)

Lemma authRequired_cases :
  forall req,
    (has_session_cookies req /\ authRequired req = None) \/
    (~ has_session_cookies req /\ authRequired req = Some "/login").
Proof.
  intros req. unfold authRequired.
  destruct (LoggedIn (getSession req)) eqn:Hl.
  - left. split; [now apply getSession_logged_in_iff | reflexivity].
  - right. split; [|reflexivity]. intros Hc.
    apply getSession_logged_in_iff in Hc. congruence.
Qed.

(** X3: [authRequired] lets a request through exactly when both session
    cookies reach it, whatever they hold (no signature, no check of the
    user name, of the JSON or of the groups); any other request is sent to
    [/login]. *)
Theorem authRequired_iff_cookies :
  forall req,
    (authRequired req = None <-> has_session_cookies req) /\
    (authRequired req = Some "/login" <-> ~ has_session_cookies req).
Proof.
  intros req.
  destruct (authRequired_cases req) as [[Hc Ha]|[Hc Ha]]; rewrite Ha; split; split;
    try discriminate; try tauto; intros; contradiction.
Qed.

(** X4: on each of the four guarded routes a request without both
    session cookies is answered with a redirect (302) to [/login] and with
    nothing else: the answer is the same for every state of the store, the
    handler is not run. *)
Theorem guarded_routes_redirect :
  forall route db req,
    ~ has_session_cookies req ->
    serve_guarded route db req = Redirect StatusFound "/login".
Proof.
  intros route db req Hc. unfold serve_guarded, authorized.
  destruct (authRequired_cases req) as [[Hc' _]|[_ Ha]]; [contradiction|].
  now rewrite Ha.
Qed.

Lemma guarded_routes_redirect_witness :
  serve_guarded RouteApiEmployee (c_db [ivanov_row])
    (mkRequest [("username", "ivanov")] [] [("id", "1")]) =
  Redirect StatusFound "/login".
Proof.
  apply (guarded_routes_redirect RouteApiEmployee (c_db [ivanov_row])
           (mkRequest [("username", "ivanov")] [] [("id", "1")])).
  intros [_ H]. apply H. reflexivity.
Defined.

(** X5: [loginHandler] and [authRequired] never both turn a request
    away: [loginHandler] redirects to [/] exactly the requests that
    [authRequired] lets through and shows the login page, without error
    message, to the others. *)
Theorem login_page_or_gate :
  forall req,
    (authRequired req = None /\ loginHandler req = LoginRedirect StatusFound "/") \/
    (authRequired req = Some "/login" /\
     loginHandler req = LoginPage StatusOK "login.html" None).
Proof.
  intros req. unfold authRequired, loginHandler.
  destruct (LoggedIn (getSession req)); [left | right]; split; reflexivity.
Qed.

(** ** Login *)

(** X6: [loginPostHandler] writes the session cookies and redirects to
    [/] exactly when both form fields are filled in, the gateway answers,
    reports success and names a group of the allow-list; in every other
    case it writes no cookie and renders the login page, status 200, with
    an error message. *)
Theorem login_sets_session_iff :
  forall net cfg w form,
    let username := PostForm form "username" in
    let password := PostForm form "password" in
    (exists authResp,
        username <> EmptyString /\ password <> EmptyString /\
        checkAuth net cfg username password = Ok authResp /\
        Success authResp = true /\ hasAccess (Resp_Groups authResp) = true /\
        loginPostHandler net cfg w form =
          (setSession w username (Resp_Groups authResp), LoginRedirect StatusFound "/")) \/
    (exists msg,
        loginPostHandler net cfg w form =
          (w, LoginPage StatusOK "login.html" (Some msg)) /\
        ~ (username <> EmptyString /\ password <> EmptyString /\
           exists authResp,
             checkAuth net cfg username password = Ok authResp /\
             Success authResp = true /\ hasAccess (Resp_Groups authResp) = true)).
Proof.
  intros net cfg w form username password.
  unfold loginPostHandler. fold username password.
  destruct (String.eqb_spec username EmptyString) as [Hu|Hu].
  { right. eexists. split; [reflexivity | tauto]. }
  destruct (String.eqb_spec password EmptyString) as [Hp|Hp].
  { right. eexists. split; [reflexivity | tauto]. }
  simpl. destruct (checkAuth net cfg username password) as [authResp|e].
  2:{ right. eexists. split; [reflexivity|]. intros (_ & _ & a & H & _). discriminate. }
  destruct (Success authResp) eqn:Hs; simpl.
  2:{ right. eexists. split; [reflexivity|].
      intros (_ & _ & a & H & H' & _). inversion H; subst. congruence. }
  destruct (hasAccess (Resp_Groups authResp)) eqn:Ha; simpl.
  2:{ right. eexists. split; [reflexivity|].
      intros (_ & _ & a & H & _ & H'). inversion H; subst. congruence. }
  left. exists authResp. repeat split; assumption.
Qed.

Lemma login_empty_field_no_gateway_aux :
  forall net cfg w form,
    PostForm form "username" = EmptyString \/ PostForm form "password" = EmptyString ->
    loginPostHandler net cfg w form =
    (w, LoginPage StatusOK "login.html" (Some "Введите логин и пароль")).
Proof.
  intros net cfg w form H. unfold loginPostHandler.
  destruct H as [H|H]; rewrite H; simpl; [reflexivity|].
  now rewrite orb_true_r.
Qed.

(** X7: with an empty user name or an empty password the gateway is not
    asked: the answer, the request for both fields, is the same whatever
    the network does, and no cookie is written. *)
Theorem login_empty_field_no_gateway :
  forall net cfg w form,
    PostForm form "username" = EmptyString \/ PostForm form "password" = EmptyString ->
    loginPostHandler net cfg w form =
    (w, LoginPage StatusOK "login.html" (Some "Введите логин и пароль")).
Proof.
  intros net cfg w form H. now apply login_empty_field_no_gateway_aux.
Qed.

Lemma login_empty_field_no_gateway_witness :
  loginPostHandler (mkNetwork (fun _ _ => Ok EmptyString)
                      (fun _ => Ok (mkAuthResponse true (mk_slice ["sys.admins"]))))
    (loadConfig []) [] [("username", "ivanov")] =
  ([], LoginPage StatusOK "login.html" (Some "Введите логин и пароль")).
Proof.
  apply login_empty_field_no_gateway. right. reflexivity.
Defined.

(** ** Answers of the store *)


(** ** More on the store *)





(** X10: the error of the store reaches the client word for word: when
    [getEmployees] fails, [apiEmployeesHandler] and both [indexHandler]s
    answer 500 with the text of the error, and so do both
    [searchHandler]s when the term is not empty and [searchEmployees]
    fails. *)
Theorem store_error_verbatim :
  forall db req e,
    (getEmployees db = Err e ->
     apiEmployeesHandler db req = JSON StatusInternalServerError (ErrorBody e) /\
     Auth.indexHandler db req = JSON StatusInternalServerError (ErrorBody e) /\
     Open.indexHandler db req = JSON StatusInternalServerError (ErrorBody e)) /\
    (Query req "q" <> EmptyString ->
     searchEmployees db (Query req "q") = Err e ->
     Auth.searchHandler db req = JSON StatusInternalServerError (ErrorBody e) /\
     Open.searchHandler db req = JSON StatusInternalServerError (ErrorBody e)).
Proof.
  intros db req e. split.
  - intros H. unfold apiEmployeesHandler, Auth.indexHandler, Open.indexHandler.
    rewrite H. auto.
  - intros Hq H. unfold Auth.searchHandler, Open.searchHandler.
    destruct (String.eqb_spec (Query req "q") EmptyString) as [Heq|_]; [contradiction|].
    rewrite H. auto.
Qed.

Lemma store_error_verbatim_witness :
  apiEmployeesHandler (c_db [petrova_row]) (request_q "a") =
    JSON StatusInternalServerError (ErrorBody null_to_string) /\
  Auth.indexHandler (c_db [petrova_row]) (request_q "a") =
    JSON StatusInternalServerError (ErrorBody null_to_string) /\
  Open.indexHandler (c_db [petrova_row]) (request_q "a") =
    JSON StatusInternalServerError (ErrorBody null_to_string).
Proof.
  apply (proj1 (store_error_verbatim (c_db [petrova_row]) (request_q "a") null_to_string)).
  reflexivity.
Defined.

(** X11: a 200 of [getEmployeeHandler] is never made up: its status is
    200 only with a record, and the record is that of a row of the table,
    without NULL, whose id is the number written in the path. *)
Theorem getEmployee_200_sound :
  forall db req code emp,
    getEmployeeHandler db req = JSON code (EmployeeBody emp) ->
    code = StatusOK /\
    Atoi (Param req "id") = Ok (ID emp) /\
    exists table r,
      db_conn db = Up table /\ In r table /\ r_id r = ID emp /\
      no_null r = true /\ emp = to_employee r.
Proof.
  intros db req code emp H. unfold getEmployeeHandler in H.
  destruct (Atoi (Param req "id")) as [id|e] eqn:Hid; [|discriminate].
  unfold query_by_id in H.
  destruct (db_conn db) as [e|table] eqn:Hc; [discriminate|].
  destruct (find (fun r => r_id r =? id) table) as [r|] eqn:Hf; [|discriminate].
  simpl in H. destruct (scan r) as [emp'|e] eqn:Hs; [|discriminate].
  inversion H; subst code emp'. clear H.
  apply find_some in Hf as [Hin Heq]. apply Z.eqb_eq in Heq.
  apply scan_ok_inv in Hs as [Hn ->].
  split; [reflexivity|]. split; [simpl; now rewrite Heq|].
  exists table, r. repeat split; auto.
Qed.

Lemma getEmployee_200_sound_witness :
  StatusOK = StatusOK /\
  Atoi (Param (request_id "1") "id") = Ok (ID (to_employee ivanov_row)) /\
  exists table r,
    db_conn (c_db [ivanov_row]) = Up table /\ In r table /\
    r_id r = ID (to_employee ivanov_row) /\
    no_null r = true /\ to_employee ivanov_row = to_employee r.
Proof.
  apply (getEmployee_200_sound (c_db [ivanov_row]) (request_id "1")).
  reflexivity.
Defined.

Lemma find_unique_id :
  forall table r,
    NoDup (map r_id table) -> In r table ->
    find (fun x => r_id x =? r_id r) table = Some r.
Proof.
  induction table as [|x table IH]; intros r Hnd Hin; [destruct Hin|].
  simpl in Hnd. inversion Hnd as [|? ? Hx Hnd']; subst.
  simpl. destruct (Z.eqb_spec (r_id x) (r_id r)) as [Heq|Hne].
  - destruct Hin as [->|Hin]; [reflexivity|].
    exfalso. apply Hx. rewrite Heq. now apply in_map.
  - destruct Hin as [->|Hin]; [congruence|]. now apply IH.
Qed.

(** X12: with ids that are unique in the table (the primary key), the
    id of a row without NULL is answered 200 with the record of that row;
    the id of a row that holds a NULL is answered 404 "Employee not found",
    as if the row were not there. *)
Theorem getEmployee_existing_id :
  forall L table req r,
    NoDup (map r_id table) -> In r table ->
    Atoi (Param req "id") = Ok (r_id r) ->
    getEmployeeHandler (mkDB L (Up table)) req =
    if no_null r
    then JSON StatusOK (EmployeeBody (to_employee r))
    else JSON StatusNotFound (ErrorBody "Employee not found").
Proof.
  intros L table req r Hnd Hin Hid. unfold getEmployeeHandler, query_by_id.
  rewrite Hid. simpl. rewrite (find_unique_id table r Hnd Hin). simpl.
  destruct (no_null r) eqn:Hn.
  - now rewrite (scan_no_null r Hn).
  - destruct (scan_null r Hn) as (e & ->). reflexivity.
Qed.

Lemma getEmployee_existing_id_witness :
  getEmployeeHandler (c_db [ivanov_row; petrova_row]) (request_id "2") =
  if no_null petrova_row
  then JSON StatusOK (EmployeeBody (to_employee petrova_row))
  else JSON StatusNotFound (ErrorBody "Employee not found").
Proof.
  apply (getEmployee_existing_id c_locale [ivanov_row; petrova_row] (request_id "2")
           petrova_row).
  - repeat constructor; simpl; intuition discriminate.
  - right; left; reflexivity.
  - reflexivity.
Defined.

(** X13: [getEmployeeHandler] has three answers and no other: 400
    "Invalid ID" exactly when the path parameter is not a decimal number
    that fits an [int] (the store is then not asked), else 404 "Employee
    not found" or 200 with a record. *)
Theorem getEmployee_three_answers :
  forall db req,
    ((exists e, Atoi (Param req "id") = Err e) /\
     forall db', getEmployeeHandler db' req = JSON StatusBadRequest (ErrorBody "Invalid ID")) \/
    ((exists id, Atoi (Param req "id") = Ok id) /\
     (getEmployeeHandler db req = JSON StatusNotFound (ErrorBody "Employee not found") \/
      exists emp, getEmployeeHandler db req = JSON StatusOK (EmployeeBody emp))).
Proof.
  intros db req. unfold getEmployeeHandler.
  destruct (Atoi (Param req "id")) as [id|e].
  - right. split; [eauto|].
    destruct (scan_one (query_by_id db id)); [right; eauto | left; reflexivity].
  - left. split; [eauto | reflexivity].
Qed.

(** ** Sessions, for every list of groups *)

Lemma coerce_copy :
  forall ch x, coerce_from (String.length ch) (ch ++ x) = ch ++ coerce_from 0 x.
Proof.
  induction ch as [|c ch IH]; intros x; [reflexivity | simpl; now rewrite IH].
Qed.

Lemma coerce_of_valid :
  forall s copy, utf8_valid_from copy s = true -> coerce_from copy s = s.
Proof.
  induction s as [|b s IH]; intros copy H; [reflexivity|].
  destruct copy as [|k]; cbn [utf8_valid_from coerce_from] in H |- *.
  - destruct (byte_of b <? 128).
    + now rewrite IH.
    + destruct (utf8_len (String b s)) as [|n]; [discriminate | now rewrite IH].
  - now rewrite IH.
Qed.

Lemma unescape_replacement :
  forall x,
    unescape (String backslash ("ufffd" ++ x)) = Some (bytes [239; 191; 189], 5%nat).
Proof.
  reflexivity.
Qed.

(** Unquoting what the encoder wrote gives the string with its bytes that
    are not UTF-8 replaced. *)
Lemma unquote_encoded_any :
  forall s e, Encodes s e -> unquote e = Some (coerce s).
Proof.
  unfold unquote, coerce.
  induction 1 as [|c s e Hb Hs _ IH|c s e Hb Hs _ IH|c s e Hb Hl _ IH
                 |s e _ IH|s e _ IH|b ch s e Hb Hx Hc Hsep _ IH].
  - reflexivity.
  - destruct (htmlSafe_plain c Hs) as (H1 & H2 & H3 & H4).
    rewrite unquote_plain, IH by assumption.
    cbn [coerce_from option_map_string]. now rewrite Hb.
  - rewrite unquote_escape, IH by assumption.
    cbn [coerce_from option_map_string]. now rewrite Hb.
  - change (String backslash "ufffd" ++ e) with (String backslash ("ufffd" ++ e)).
    rewrite (unquote_backslash _ _ _ (unescape_replacement e)).
    change (unquote_from 0 5 ("ufffd" ++ e)) with (unquote_from 0 0 e). rewrite IH.
    cbn [coerce_from]. rewrite Hb, Hl. reflexivity.
  - cbn. rewrite IH. reflexivity.
  - cbn. rewrite IH. reflexivity.
  - destruct (high_byte_plain b Hb) as (H1 & H2 & H3).
    cbn [unquote_from coerce_from]. rewrite H1, H2, H3, Hb, (Hx e), (Hx s). cbn [orb].
    rewrite unquote_copy, coerce_copy, IH. reflexivity.
Qed.

Lemma coerce_valid_encoded :
  forall s e, Encodes s e -> utf8_valid (coerce s) = true.
Proof.
  unfold utf8_valid, coerce.
  induction 1 as [|c s e Hb Hs _ IH|c s e Hb Hs _ IH|c s e Hb Hl _ IH
                 |s e _ IH|s e _ IH|b ch s e Hb Hx Hc Hsep _ IH].
  - reflexivity.
  - cbn [coerce_from]. rewrite Hb. cbn [utf8_valid_from]. now rewrite Hb.
  - cbn [coerce_from]. rewrite Hb. cbn [utf8_valid_from]. now rewrite Hb.
  - cbn [coerce_from]. rewrite Hb, Hl. exact IH.
  - exact IH.
  - exact IH.
  - cbn [coerce_from]. rewrite Hb, (Hx s), coerce_copy.
    cbn [utf8_valid_from]. rewrite Hb, (Hx (coerce_from 0 s)), utf8_valid_copy.
    exact IH.
Qed.

Lemma coerce_valid : forall s, utf8_valid (coerce s) = true.
Proof.
  intros s. exact (coerce_valid_encoded s _ (encode_Encodes s)).
Qed.

Lemma elem_value_literals_any :
  forall l, map elem_value (map literal_of l) = map coerce l.
Proof.
  induction l as [|g l IH]; [reflexivity|].
  simpl. rewrite IH.
  now rewrite (unquote_encoded_any g _ (encode_Encodes g)).
Qed.

Lemma Unmarshal_Marshal_any :
  forall groups,
    json_Unmarshal (json_Marshal groups) = (map_slice coerce groups, None).
Proof.
  intros [|l]; [reflexivity|].
  unfold json_Unmarshal. rewrite checkValid_Marshal.
  unfold json_Marshal.
  change ("[" ++ join "," (map json_string l) ++ "]")
    with (String "[" (join "," (map json_string l) ++ "]")).
  cbn [skip_space].
  replace (isSpace "[") with false by reflexivity.
  replace (Ascii.eqb "[" "[") with true by reflexivity.
  cbv zeta. rewrite split_Marshal, literals_no_mismatch, elem_value_literals_any.
  reflexivity.
Qed.

Lemma getSession_setSession_any :
  forall u G,
    getSession (request_with (setSession [] u G)) =
    mkSession u (map_slice coerce G) true.
Proof.
  intros u G. now rewrite getSession_after_setSession, Unmarshal_Marshal_any.
Qed.

(** X14: for every user name, whatever its bytes, and every list of
    groups, [getSession] on the cookies written by [setSession] answers a
    logged-in session with exactly that user name and with the groups in
    order, each with its bytes that are not UTF-8 replaced by U+FFFD; the
    groups read back are valid UTF-8 and a second round trip changes
    nothing more. *)
Theorem session_roundtrip_any :
  forall u G,
    getSession (request_with (setSession [] u G)) =
      mkSession u (map_slice coerce G) true /\
    Forall (fun g => utf8_valid g = true) (elems (map_slice coerce G)) /\
    getSession (request_with (setSession [] u (map_slice coerce G))) =
      mkSession u (map_slice coerce G) true.
Proof.
  intros u G.
  assert (Hv : Forall (fun g => utf8_valid g = true) (elems (map_slice coerce G))).
  { destruct G as [|l]; simpl; [constructor|].
    apply Forall_forall. intros g Hg. apply in_map_iff in Hg as (x & <- & _).
    apply coerce_valid. }
  split; [|split; [exact Hv|]].
  - apply getSession_setSession_any.
  - rewrite getSession_after_setSession, Unmarshal_Marshal by exact Hv. reflexivity.
Qed.

Lemma allowedGroups_valid :
  Forall (fun g => utf8_valid g = true) allowedGroups.
Proof.
  repeat constructor.
Qed.

Lemma hasAccess_coerce :
  forall G, hasAccess G = true -> hasAccess (map_slice coerce G) = true.
Proof.
  intros G. unfold hasAccess. rewrite !hasAccess_loop_intersects.
  intros (g & Hg & Ha). exists g. split; [|exact Ha].
  assert (Hc : coerce g = g).
  { apply coerce_of_valid.
    pose proof allowedGroups_valid as Hall. rewrite Forall_forall in Hall.
    exact (Hall g Ha). }
  destruct G as [|l]; simpl in *; [contradiction|].
  rewrite <- Hc. now apply in_map.
Qed.

(** X15: after a login that [loginPostHandler] grants, the request that
    returns its cookies is logged in under the user name of the form, which
    is not empty, its groups pass [hasAccess], [authRequired] lets it
    through and [loginHandler] sends it on to [/]. *)
Theorem login_then_session :
  forall net cfg form w code location,
    loginPostHandler net cfg [] form = (w, LoginRedirect code location) ->
    LoggedIn (getSession (request_with w)) = true /\
    Username (getSession (request_with w)) = PostForm form "username" /\
    PostForm form "username" <> EmptyString /\
    hasAccess (Groups (getSession (request_with w))) = true /\
    authRequired (request_with w) = None /\
    loginHandler (request_with w) = LoginRedirect StatusFound "/".
Proof.
  intros net cfg form w code location H. unfold loginPostHandler in H.
  destruct (String.eqb_spec (PostForm form "username") EmptyString) as [Hu|Hu];
    [discriminate|].
  destruct (String.eqb (PostForm form "password") EmptyString); [discriminate|].
  simpl in H.
  destruct (checkAuth net cfg _ _) as [authResp|e]; [|discriminate].
  destruct (Success authResp); [|discriminate]. simpl in H.
  destruct (hasAccess (Resp_Groups authResp)) eqn:Ha; [|discriminate]. simpl in H.
  inversion H; subst w. clear H.
  unfold authRequired, loginHandler.
  rewrite (getSession_setSession_any (PostForm form "username") (Resp_Groups authResp)).
  simpl. repeat split; try assumption. now apply hasAccess_coerce.
Qed.

Lemma login_then_session_witness :
  LoggedIn (getSession (request_with
     (setSession [] "ivanov" (mk_slice ["sys.admins"])))) = true /\
  Username (getSession (request_with
     (setSession [] "ivanov" (mk_slice ["sys.admins"])))) =
    PostForm [("username", "ivanov"); ("password", "secret")] "username" /\
  PostForm [("username", "ivanov"); ("password", "secret")] "username" <> EmptyString /\
  hasAccess (Groups (getSession (request_with
     (setSession [] "ivanov" (mk_slice ["sys.admins"]))))) = true /\
  authRequired (request_with (setSession [] "ivanov" (mk_slice ["sys.admins"]))) = None /\
  loginHandler (request_with (setSession [] "ivanov" (mk_slice ["sys.admins"]))) =
    LoginRedirect StatusFound "/".
Proof.
  apply (login_then_session
           (mkNetwork (fun _ _ => Ok EmptyString)
              (fun _ => Ok (mkAuthResponse true (mk_slice ["sys.admins"]))))
           (loadConfig []) [("username", "ivanov"); ("password", "secret")]
           (setSession [] "ivanov" (mk_slice ["sys.admins"])) StatusFound "/").
  reflexivity.
Defined.

(** X16: [clearSession] expires what [setSession] sets and nothing else:
    cookie by cookie the name, the path and the domain agree, the value is
    empty and Max-Age is negative; [logoutHandler] adds these two cookies
    and redirects to [/login].  The server itself keeps nothing: a client
    that returned the two emptied cookies would still be logged in, under
    the empty user name. *)
Theorem clearSession_expires_session :
  forall u G w,
    Forall2 (fun s c => Name c = Name s /\ Path c = Path s /\ Domain c = Domain s /\
                        Value c = EmptyString /\ MaxAge c < 0)
      (setSession [] u G) (clearSession []) /\
    logoutHandler w = ((w ++ clearSession [])%list, LoginRedirect StatusFound "/login") /\
    getSession (request_with (clearSession [])) = mkSession EmptyString nil_slice true.
Proof.
  intros u G w. split; [|split].
  - unfold setSession, clearSession, SetCookie. simpl.
    repeat constructor.
  - unfold logoutHandler, clearSession, SetCookie. now rewrite <- app_assoc.
  - reflexivity.
Qed.

(** ** The body sent to the gateway *)

Lemma scan_json_string :
  forall s x st et ps,
    st = stateBeginValue \/ st = stateBeginString \/ st = stateBeginStringOrEmpty ->
    scan_bytes (mkScanner st et ps) (json_string s ++ x) =
    scan_bytes (mkScanner stateEndValue et ps) x.
Proof.
  intros s x st et ps Hst. rewrite json_string_app.
  cbn [scan_bytes].
  replace (scan_step (mkScanner st et ps) dquote) with (mkScanner stateInString et ps)
    by (destruct Hst as [->|[->| ->]]; reflexivity).
  apply scan_literal.
Qed.

(** X17: whatever bytes the user name and the password hold, the body
    that [checkAuth] sends, the JSON of the [AuthRequest], is valid
    JSON. *)
Theorem authRequestJSON_valid :
  forall username password, checkValid (authRequestJSON username password) = true.
Proof.
  intros username password. unfold checkValid, authRequestJSON.
  change ("{" ++ ?x) with (String "{" x).
  cbn [scan_bytes].
  replace (scan_step (mkScanner stateBeginValue false []) "{"%char)
    with (mkScanner stateBeginStringOrEmpty false [parseObjectKey]) by reflexivity.
  rewrite scan_json_string by auto.
  change (":" ++ ?x) with (String ":" x). cbn [scan_bytes].
  replace (scan_step (mkScanner stateEndValue false [parseObjectKey]) ":"%char)
    with (mkScanner stateBeginValue false [parseObjectValue]) by reflexivity.
  rewrite scan_json_string by auto.
  change ("," ++ ?x) with (String "," x). cbn [scan_bytes].
  replace (scan_step (mkScanner stateEndValue false [parseObjectValue]) ","%char)
    with (mkScanner stateBeginString false [parseObjectKey]) by reflexivity.
  rewrite scan_json_string by auto.
  change (":" ++ ?x) with (String ":" x). cbn [scan_bytes].
  replace (scan_step (mkScanner stateEndValue false [parseObjectKey]) ":"%char)
    with (mkScanner stateBeginValue false [parseObjectValue]) by reflexivity.
  rewrite scan_json_string by auto.
  reflexivity.
Qed.

(** ** Bootstrap of the table *)

Lemma sample_rows_admissible :
  forall serial now,
    1 <= serial -> serial + 3 <= max_serial ->
    forallb admissible (inserted_rows serial now sample_values) = true.
Proof.
  intros serial now H1 H2. unfold sample_values.
  cbn [inserted_rows forallb]. unfold admissible.
  cbn [inserted_row r_id r_last_name r_first_name r_middle_name r_position r_phone
       r_email r_building r_status].
  repeat match goal with
         | |- context [?a <=? ?b] =>
             lazymatch a with
             | char_count _ => fail
             | _ => replace (a <=? b) with true by (symmetry; apply Z.leb_le; lia)
             end
         end.
  reflexivity.
Qed.

Lemma insertSampleData_ok_rows :
  forall now t t',
    insertSampleData now t = (t', None) ->
    t_rows t' = (t_rows t ++ inserted_rows (t_serial t) now sample_values)%list /\
    t_serial t' = t_serial t + 4.
Proof.
  intros now t t' H. unfold insertSampleData in H.
  destruct (forallb admissible _ && forallb _ _); inversion H; subst; auto.
Qed.

Lemma len_app_sample :
  forall (l : list Row) serial now,
    (len (l ++ inserted_rows serial now sample_values)%list =? 0) = false.
Proof.
  intros l serial now. unfold len. rewrite length_app. simpl. apply Z.eqb_neq. lia.
Qed.

(** X18: [createTableIfNotExists] is safe to run again: after a run
    without error a further run, at any later time, changes nothing and
    returns no error; and a table that has a row is never touched. *)
Theorem createTable_idempotent :
  (forall now now' s s',
      createTableIfNotExists now s = (s', None) ->
      createTableIfNotExists now' s' = (s', None)) /\
  (forall now t,
      t_rows t <> [] ->
      createTableIfNotExists now (ServerUp (Some t)) = (ServerUp (Some t), None)).
Proof.
  assert (Hkeep : forall now t,
             t_rows t <> [] ->
             createTableIfNotExists now (ServerUp (Some t)) = (ServerUp (Some t), None)).
  { intros now t Ht. unfold createTableIfNotExists.
    destruct (t_rows t) as [|r rows] eqn:Hr; [contradiction|].
    unfold len. simpl length. rewrite Nat2Z.inj_succ.
    destruct (Z.eqb_spec (Z.succ (Z.of_nat (length rows))) 0) as [H0|_]; [lia | reflexivity]. }
  split; [|exact Hkeep].
  intros now now' s s' H. destruct s as [e|table]; [discriminate|].
  unfold createTableIfNotExists in H.
  set (t := match table with None => mkTable [] 1 | Some t => t end) in *.
  destruct (len (t_rows t) =? 0) eqn:Hc.
  - destruct (insertSampleData now t) as [t' [e|]] eqn:Hi; [discriminate|].
    inversion H; subst s'. apply Hkeep.
    destruct (insertSampleData_ok_rows now t t' Hi) as [Hr _]. rewrite Hr.
    intros Hnil. apply (f_equal (@length Row)) in Hnil.
    rewrite length_app in Hnil. simpl in Hnil. lia.
  - inversion H; subst s'. apply Hkeep. intros Hnil. rewrite Hnil in Hc. discriminate.
Qed.

Lemma createTable_idempotent_witness :
  createTableIfNotExists 20 (ServerUp (Some (mkTable [ivanov_row] 2))) =
  (ServerUp (Some (mkTable [ivanov_row] 2)), None).
Proof.
  apply (proj1 createTable_idempotent 10 20 (ServerUp (Some (mkTable [ivanov_row] 2)))).
  reflexivity.
Defined.

Lemma inserted_rows_no_null :
  forall values serial now,
    Forall (fun r => no_null r = true) (inserted_rows serial now values).
Proof.
  induction values as [|v values IH]; intros serial now; simpl; constructor;
    [reflexivity | apply IH].
Qed.

(** X19: on a server without the table, or with the table empty and the
    sequence not exhausted, [createTableIfNotExists] leaves a table of
    four rows that the directory can read: [getEmployees] returns four
    records, under any collation, with distinct ids taken from the
    sequence, the time of the run as creation time, and a building and a
    status that the table admits. *)
Theorem createTable_seeds_readable_store :
  forall now L table serial,
    (table = None /\ serial = 1) \/
    (table = Some (mkTable [] serial) /\ 1 <= serial /\ serial + 3 <= max_serial) ->
    exists t' employees,
      createTableIfNotExists now (ServerUp table) = (ServerUp (Some t'), None) /\
      t_serial t' = serial + 4 /\
      getEmployees (mkDB L (conn_of (ServerUp (Some t')))) = Ok employees /\
      length employees = 4%nat /\
      NoDup (map ID employees) /\
      Forall (fun e => serial <= ID e < serial + 4 /\ CreatedAt e = now /\
                       In (Building e) buildings /\ In (Status e) statuses) employees.
Proof.
  intros now L table serial Ht.
  set (rows := inserted_rows serial now sample_values).
  assert (Hrun : createTableIfNotExists now (ServerUp table) =
                 (ServerUp (Some (mkTable rows (serial + 4))), None)).
  { assert (Hs : 1 <= serial /\ serial + 3 <= max_serial)
      by (destruct Ht as [[_ ->]|[_ H]]; [unfold max_serial; lia | exact H]).
    assert (Hins : insertSampleData now (mkTable [] serial) =
                   (mkTable rows (serial + 4), None)).
    { unfold insertSampleData. cbn [t_rows t_serial].
      rewrite (sample_rows_admissible serial now (proj1 Hs) (proj2 Hs)).
      replace (forallb _ (inserted_rows serial now sample_values)) with true
        by (symmetry; apply forallb_forall; intros; reflexivity).
      reflexivity. }
    destruct Ht as [[-> ->]|[-> _]]; unfold createTableIfNotExists;
      cbn [t_rows len length Z.of_nat Z.eqb]; now rewrite Hins. }
  exists (mkTable rows (serial + 4)), (map to_employee (order_by_name L rows)).
  assert (Hperm : Permutation (map to_employee rows)
                    (map to_employee (order_by_name L rows)))
    by apply Permutation_map, order_by_name_perm.
  split; [exact Hrun|]. split; [reflexivity|]. split; [|split; [|split]].
  - apply getEmployees_no_null. apply inserted_rows_no_null.
  - rewrite <- (Permutation_length Hperm). reflexivity.
  - eapply Permutation_NoDup; [apply Permutation_map, Hperm|].
    unfold rows. simpl. repeat constructor; simpl; intuition lia.
  - eapply Permutation_Forall; [exact Hperm|].
    unfold rows, buildings, statuses. simpl.
    repeat apply Forall_cons; try apply Forall_nil;
      (repeat split; simpl; try lia; auto 10).
Qed.

Lemma createTable_seeds_readable_store_witness :
  exists t' employees,
    createTableIfNotExists 1700000000 (ServerUp None) = (ServerUp (Some t'), None) /\
    t_serial t' = 1 + 4 /\
    getEmployees (mkDB c_locale (conn_of (ServerUp (Some t')))) = Ok employees /\
    length employees = 4%nat /\
    NoDup (map ID employees) /\
    Forall (fun e => 1 <= ID e < 1 + 4 /\ CreatedAt e = 1700000000 /\
                     In (Building e) buildings /\ In (Status e) statuses) employees.
Proof.
  apply (createTable_seeds_readable_store 1700000000 c_locale None 1).
  left. split; reflexivity.
Defined.

(** X20: each way a login fails has its own message, checked in this
    order: a missing field; a gateway that cannot be reached or whose
    answer cannot be decoded; an answer without success, whatever groups
    it names; groups outside the allow-list.  The four messages differ. *)
Theorem login_rejection_messages :
  forall net cfg w form,
    let username := PostForm form "username" in
    let password := PostForm form "password" in
    let page msg := (w, LoginPage StatusOK "login.html" (Some msg)) in
    (username = EmptyString \/ password = EmptyString ->
     loginPostHandler net cfg w form = page "Введите логин и пароль") /\
    (username <> EmptyString -> password <> EmptyString ->
     (forall e, checkAuth net cfg username password = Err e ->
        loginPostHandler net cfg w form =
          page "Ошибка подключения к серверу авторизации") /\
     (forall authResp,
        checkAuth net cfg username password = Ok authResp ->
        Success authResp = false ->
        loginPostHandler net cfg w form =
          page "Проверьте логин или пароль, ошибка авторизации") /\
     (forall authResp,
        checkAuth net cfg username password = Ok authResp ->
        Success authResp = true -> hasAccess (Resp_Groups authResp) = false ->
        loginPostHandler net cfg w form =
          page "Обратитесь за доступом к администратору")) /\
    NoDup ["Введите логин и пароль"; "Ошибка подключения к серверу авторизации";
           "Проверьте логин или пароль, ошибка авторизации";
           "Обратитесь за доступом к администратору"].
Proof.
  intros net cfg w form username password page. split; [|split].
  - intros H. apply login_empty_field_no_gateway_aux. exact H.
  - intros Hu Hp. unfold loginPostHandler. fold username password.
    destruct (String.eqb_spec username EmptyString) as [|_]; [contradiction|].
    destruct (String.eqb_spec password EmptyString) as [|_]; [contradiction|].
    simpl. split; [|split].
    + intros e ->. reflexivity.
    + intros a -> ->. reflexivity.
    + intros a -> -> ->. reflexivity.
  - repeat constructor; simpl; intuition discriminate.
Qed.

Lemma login_rejection_messages_witness :
  loginPostHandler
    (mkNetwork (fun _ _ => Err "dial tcp: timeout")
       (fun _ => Ok (mkAuthResponse true (mk_slice ["sys.admins"]))))
    (loadConfig []) [] [("username", "ivanov"); ("password", "secret")] =
  ([], LoginPage StatusOK "login.html" (Some "Ошибка подключения к серверу авторизации")).
Proof.
  apply (proj1 (proj1 (proj2
           (login_rejection_messages
              (mkNetwork (fun _ _ => Err "dial tcp: timeout")
                 (fun _ => Ok (mkAuthResponse true (mk_slice ["sys.admins"]))))
              (loadConfig []) [] [("username", "ivanov"); ("password", "secret")]))
           ltac:(discriminate) ltac:(discriminate)) "dial tcp: timeout").
  reflexivity.
Defined.

Lemma loadConfig_no_empty_setting_witness :
  getEnv [("DB_HOST", "db.local"); ("DB_PORT", EmptyString)] "DB_HOST" "localhost" = "db.local" /\
  getEnv [("DB_HOST", "db.local"); ("DB_PORT", EmptyString)] "DB_PORT" "5432" = "5432".
Proof.
  destruct (loadConfig_no_empty_setting [("DB_HOST", "db.local"); ("DB_PORT", EmptyString)])
    as (_ & Hset & Hdef).
  split.
  - apply Hset; [reflexivity | discriminate].
  - apply Hdef. right. reflexivity.
Defined.


(** ** More on search *)

Lemma search_where_lower :
  forall L p1 p2 r,
    lc_lower L p1 = lc_lower L p2 -> search_where L p1 r = search_where L p2 r.
Proof.
  intros L p1 p2 r H. unfold search_where, ilike_col, ilike. now rewrite H.
Qed.

(** X21: the case of the letters of the term does not matter, wildcards
    or not: two terms that the store lower-cases to the same text get the
    same answer from [searchEmployees], on every state of the store. *)
Theorem search_term_case_insensitive :
  forall L conn t1 t2,
    LowerOk L ->
    lc_lower L t1 = lc_lower L t2 ->
    searchEmployees (mkDB L conn) t1 = searchEmployees (mkDB L conn) t2.
Proof.
  intros L conn t1 t2 HL Ht. unfold searchEmployees, query_search. simpl.
  destruct conn as [e|table]; [reflexivity|].
  assert (Hp : lc_lower L ("%" ++ t1 ++ "%") = lc_lower L ("%" ++ t2 ++ "%"))
    by (rewrite !(lower_wrap L HL); now rewrite Ht).
  rewrite (filter_ext _ _ (fun r => f_equal sql_true (search_where_lower L _ _ r Hp))).
  reflexivity.
Qed.

Lemma search_term_case_insensitive_witness :
  searchEmployees (mkDB c_locale (Up [ivanov_row; petrova_row])) "IVAN_V" =
  searchEmployees (mkDB c_locale (Up [ivanov_row; petrova_row])) "ivan_v".
Proof.
  apply (search_term_case_insensitive c_locale (Up [ivanov_row; petrova_row])
           "IVAN_V" "ivan_v").
  - exact c_lower_ok.
  - reflexivity.
Defined.

Lemma filter_all :
  forall (A : Type) (f : A -> bool) (l : list A),
    (forall x, In x l -> f x = true) -> filter f l = l.
Proof.
  intros A f l; induction l as [|x l IH]; intros H; [reflexivity|].
  simpl. rewrite (H x (or_introl eq_refl)), IH; [reflexivity|].
  intros y Hy. apply H. now right.
Qed.

(** X22: the short cut of [searchHandler] for the empty term changes no
    result: asked directly, [searchEmployees] with the empty term returns
    what [getEmployees] returns, records or error, on every state of the
    store (the last name, never NULL, matches the pattern [%%]). *)
Theorem search_empty_term_is_listing :
  forall L conn,
    LowerOk L -> lc_lower L EmptyString = EmptyString ->
    searchEmployees (mkDB L conn) EmptyString = getEmployees (mkDB L conn).
Proof.
  intros L conn HL H0. unfold searchEmployees, getEmployees, query_search, query_all.
  simpl. destruct conn as [e|table]; [reflexivity|].
  rewrite filter_all; [reflexivity|].
  intros r _. unfold search_where. rewrite sql_true_or.
  unfold ilike_col at 1. unfold ilike.
  change (String "%" "%") with ("%" ++ EmptyString ++ "%").
  rewrite (lower_wrap L HL), H0.
  assert (Hl : like ("%" ++ EmptyString ++ "%") (lc_lower L (r_last_name r)) = true).
  { apply like_contains; [reflexivity|].
    exists EmptyString, (lc_lower L (r_last_name r)). reflexivity. }
  rewrite Hl. reflexivity.
Qed.

Lemma search_empty_term_is_listing_witness :
  searchEmployees (mkDB c_locale (Up [ivanov_row; petrova_row])) EmptyString =
  getEmployees (mkDB c_locale (Up [ivanov_row; petrova_row])).
Proof.
  apply (search_empty_term_is_listing c_locale (Up [ivanov_row; petrova_row])).
  - exact c_lower_ok.
  - reflexivity.
Defined.

(** X23: every list that [getEmployees] or [searchEmployees] returns,
    for any term, wildcards included, is ordered by (last name, first
    name) under the collation of the store. *)
Theorem returned_lists_sorted :
  forall L conn term employees,
    CollationOk L ->
    getEmployees (mkDB L conn) = Ok employees \/
    searchEmployees (mkDB L conn) term = Ok employees ->
    StronglySorted (emp_le L) employees.
Proof.
  intros L conn term employees HL H.
  unfold getEmployees, searchEmployees, query_all, query_search in H. simpl in H.
  destruct conn as [e|table]; [destruct H; discriminate|].
  destruct H as [H|H]; apply scan_rows_ok_inv in H; simpl in H; subst employees;
    apply sorted_rows_employees, order_by_name_sorted, HL.
Qed.

Lemma returned_lists_sorted_witness :
  StronglySorted (emp_le c_locale) [to_employee row_A_Y; to_employee row_B_X].
Proof.
  apply (returned_lists_sorted c_locale (Up [row_B_X; row_A_Y]) "%").
  - exact c_collation_ok.
  - right. reflexivity.
Defined.

(** ** Cookies as written *)

(** X24: whatever bytes the user name and the group names hold, the
    values that [setSession] puts in its two cookies are made of bytes a
    cookie value may carry bare (no control character, blank, comma,
    semicolon, quote or backslash): net/http writes them into the header
    unchanged and reads them back as they are. *)
Theorem setSession_values_header_safe :
  forall u G,
    Forall (fun c => string_forallb plain_cookie_byte (Value c) = true /\
                     sanitizeCookieValue (Value c) = Value c /\
                     parseCookieValue (Value c) = Some (Value c))
      (setSession [] u G).
Proof.
  intros u G. unfold setSession, SetCookie. simpl.
  repeat constructor; simpl;
    try apply QueryEscape_plain;
    try (apply sanitizeCookieValue_plain, QueryEscape_plain);
    apply parseCookieValue_plain, QueryEscape_plain.
Qed.
